(** * httpx: request execution, bounded body reading and trace sanitizing

    A shallow embedding of [httpx/http.go] (package [httpx] of gocommon)
    together with the properties of its executor ([do], [Do], [DoTrace]),
    of the bounded body reader ([readBody], [dumpResponse]) and of the trace
    sanitizer ([SanitizedRequest], [SanitizedResponse], [santizedTrace],
    [replaceNullChars]).

    Go byte slices and Go strings are lists of bytes (a Go string may hold
    any byte sequence); Go's [int] and [int64] are integers in [Z] with the
    64-bit wrap-around written out where the code does arithmetic on them;
    the collaborators the file calls but does not define (the Requestor,
    the retry and access configurations, [httputil]'s dumps, the clock) are
    parameters of the executor. *)

From Stdlib Require Import List ZArith NArith Lia Bool String DecimalString.
From Stdlib Require DecimalZ.
From Stdlib.Strings Require Import Byte.
Import ListNotations.

(** Go's [[]byte]. *)
Definition bytes : Type := list byte.

(** The bytes of a Go string literal. *)
Definition lit (s : string) : bytes := list_byte_of_string s.

(** The byte [0], the [NULL] character the sanitizer strips. *)
Definition NUL : byte := x00.

(** A byte sequence holds no [NULL] byte. *)
Definition nullFreeb (b : bytes) : bool :=
  forallb (fun c => negb (Byte.eqb c NUL)) b.

(** ** Package [unicode/utf8] *)
Module utf8.

(** [utf8.RuneSelf]: bytes below it are single-byte runes. *)
Definition RuneSelf : N := 0x80%N.

(** The default continuation byte range, [locb] to [hicb]. *)
Definition locb : N := 0x80%N.
Definition hicb : N := 0xBF%N.

(** [lo <= b <= hi], the test [!(b < lo || hi < b)] of the decoder. *)
Definition accepted (lo hi : N) (b : byte) : bool :=
  ((lo <=? to_N b) && (to_N b <=? hi))%N.

(** An entry of the table [first]: [as] for ASCII, [xx] for a byte that
    cannot start a sequence, and for a leading byte the size of its
    sequence with the accept range of the second byte ([acceptRanges]). *)
Inductive firstEntry : Type :=
| as_
| xx
| two (lo hi : N)
| three (lo hi : N)
| four (lo hi : N).

(** The table [first], entry by entry: [s1] for C2..DF, [s2] for E0, [s3]
    for E1..EC and EE..EF, [s4] for ED, [s5] for F0, [s6] for F1..F3, [s7]
    for F4, [xx] for 80..C1 and F5..FF. *)
Definition first (b : byte) : firstEntry :=
  let n := to_N b in
  if (n <? 0x80)%N then as_
  else if (n <? 0xC2)%N then xx
  else if (n <? 0xE0)%N then two locb hicb
  else if (n =? 0xE0)%N then three 0xA0%N hicb
  else if (n <? 0xED)%N then three locb hicb
  else if (n =? 0xED)%N then three locb 0x9F%N
  else if (n <? 0xF0)%N then three locb hicb
  else if (n =? 0xF0)%N then four 0x90%N hicb
  else if (n <? 0xF4)%N then four locb hicb
  else if (n =? 0xF4)%N then four locb 0x8F%N
  else xx.

(** The size [utf8.DecodeRune] returns: 0 for the empty slice, 1 for an
    ASCII byte and for an invalid encoding ([RuneError], 1), otherwise the
    width of the well-formed sequence at the head of [p]. *)
Definition DecodeRune_size (p : bytes) : nat :=
  match p with
  | [] => 0
  | p0 :: r =>
      match first p0 with
      | as_ | xx => 1
      | two lo hi =>
          match r with
          | b1 :: _ => if accepted lo hi b1 then 2 else 1
          | _ => 1
          end
      | three lo hi =>
          match r with
          | b1 :: b2 :: _ =>
              if accepted lo hi b1 && accepted locb hicb b2 then 3 else 1
          | _ => 1
          end
      | four lo hi =>
          match r with
          | b1 :: b2 :: b3 :: _ =>
              if accepted lo hi b1 && accepted locb hicb b2
                 && accepted locb hicb b3 then 4 else 1
          | _ => 1
          end
      end
  end.

(** [utf8.Valid]: the loop walks the slice one rune at a time and fails at
    the first byte that does not start a well-formed sequence. *)
Fixpoint Valid (p : bytes) : bool :=
  match p with
  | [] => true
  | p0 :: r =>
      match first p0 with
      | as_ => Valid r
      | xx => false
      | two lo hi =>
          match r with
          | b1 :: r1 => accepted lo hi b1 && Valid r1
          | _ => false
          end
      | three lo hi =>
          match r with
          | b1 :: b2 :: r2 =>
              accepted lo hi b1 && accepted locb hicb b2 && Valid r2
          | _ => false
          end
      | four lo hi =>
          match r with
          | b1 :: b2 :: b3 :: r3 =>
              accepted lo hi b1 && accepted locb hicb b2
              && accepted locb hicb b3 && Valid r3
          | _ => false
          end
      end
  end.

End utf8.

(** ** Package [bytes] *)
Module bytes_.

(** [bytes.HasPrefix]. *)
Fixpoint HasPrefix (s prefix : bytes) {struct prefix} : bool :=
  match prefix, s with
  | [], _ => true
  | p :: prefix', c :: s' => Byte.eqb c p && HasPrefix s' prefix'
  | _ :: _, [] => false
  end.

(** [bytes.Contains]: [sep] occurs in [s]. *)
Fixpoint Contains (s sep : bytes) : bool :=
  HasPrefix s sep
  || match s with
     | [] => false
     | _ :: s' => Contains s' sep
     end.

(** The cut of [s] at the first (leftmost) instance of [sep], as
    [bytes.Index] finds it: the bytes before it and the bytes after it. *)
Fixpoint cutAtFirst (s sep : bytes) : option (bytes * bytes) :=
  if HasPrefix s sep then Some ([], skipn (List.length sep) s)
  else
    match s with
    | [] => None
    | c :: s' =>
        match cutAtFirst s' sep with
        | Some (before, after) => Some (c :: before, after)
        | None => None
        end
    end.

(** [bytes.SplitN(s, sep, 2)] for a non-empty [sep]: the part before the
    first [sep] and the rest, or [s] alone when [sep] does not occur. *)
Definition SplitN2 (s sep : bytes) : list bytes :=
  match cutAtFirst s sep with
  | Some (before, after) => [before; after]
  | None => [s]
  end.

(** [bytes.ReplaceAll(s, []byte{old}, new)] for a one-byte pattern: every
    instance of the byte [old] is replaced by [new]. *)
Fixpoint ReplaceAll1 (s : bytes) (old : byte) (new : bytes) : bytes :=
  match s with
  | [] => []
  | c :: s' =>
      if Byte.eqb c old then new ++ ReplaceAll1 s' old new
      else c :: ReplaceAll1 s' old new
  end.

(** [bytes.ToValidUTF8]: [invalid] records that the previous byte was part
    of an invalid sequence, so that a run of invalid bytes is replaced by a
    single [replacement]. *)
Fixpoint ToValidUTF8_from (invalid : bool) (s replacement : bytes) : bytes :=
  match s with
  | [] => []
  | c :: r =>
      let bad :=
        (if invalid then [] else replacement)
          ++ ToValidUTF8_from true r replacement in
      match utf8.first c with
      | utf8.as_ => c :: ToValidUTF8_from false r replacement
      | utf8.xx => bad
      | utf8.two lo hi =>
          match r with
          | b1 :: r1 =>
              if utf8.accepted lo hi b1
              then c :: b1 :: ToValidUTF8_from false r1 replacement
              else bad
          | _ => bad
          end
      | utf8.three lo hi =>
          match r with
          | b1 :: b2 :: r2 =>
              if utf8.accepted lo hi b1 && utf8.accepted utf8.locb utf8.hicb b2
              then c :: b1 :: b2 :: ToValidUTF8_from false r2 replacement
              else bad
          | _ => bad
          end
      | utf8.four lo hi =>
          match r with
          | b1 :: b2 :: b3 :: r3 =>
              if utf8.accepted lo hi b1 && utf8.accepted utf8.locb utf8.hicb b2
                 && utf8.accepted utf8.locb utf8.hicb b3
              then c :: b1 :: b2 :: b3 :: ToValidUTF8_from false r3 replacement
              else bad
          | _ => bad
          end
      end
  end.

Definition ToValidUTF8 (s replacement : bytes) : bytes :=
  ToValidUTF8_from false s replacement.

End bytes_.

(** The replacement marker, U+FFFD, as the three bytes of its encoding. *)
Definition replacementChar : bytes := [xef; xbf; xbd].

(** ** Package [strings] *)
Module strings_.

(** Equality of two Go strings. *)
Fixpoint eqb (a b : bytes) : bool :=
  match a, b with
  | [], [] => true
  | x :: a', y :: b' => Byte.eqb x y && eqb a' b'
  | _, _ => false
  end.

(** [strings.IndexByte(s, c) >= 0]. *)
Definition hasByte (c : byte) (s : bytes) : bool := existsb (Byte.eqb c) s.

(** Every byte is below [utf8.RuneSelf]. *)
Definition isASCII (s : bytes) : bool :=
  forallb (fun c => (to_N c <? utf8.RuneSelf)%N) s.

(** The byte of a number below 256. *)
Definition byteOfN (n : N) : byte :=
  match Byte.of_N n with
  | Some b => b
  | None => x00
  end.

(** An upper-case ASCII letter moved to lower case, [c + 'a' - 'A']. *)
Definition lowerASCII (c : byte) : byte :=
  if ((0x41 <=? to_N c) && (to_N c <=? 0x5A))%N
  then byteOfN (to_N c + 32)
  else c.

(** The table [asciiSpace]: tab, line feed, vertical tab, form feed,
    carriage return and space. *)
Definition asciiSpace (c : byte) : bool :=
  match c with
  | x09 | x0a | x0b | x0c | x0d | x20 => true
  | _ => false
  end.

Section Unicode.

(** [strings.Map(unicode.ToLower, s)], which [ToLower] falls back on for
    a string that is not ASCII. *)
Variable Map_ToLower : bytes -> bytes.

(** [strings.TrimFunc(s, unicode.IsSpace)] and
    [strings.TrimRightFunc(s, unicode.IsSpace)], which [TrimSpace] falls
    back on when it meets a byte that is not ASCII. *)
Variable TrimFunc_IsSpace : bytes -> bytes.
Variable TrimRightFunc_IsSpace : bytes -> bytes.

(** [strings.ToLower]. *)
Definition ToLower (s : bytes) : bytes :=
  if isASCII s then map lowerASCII s else Map_ToLower s.

(** The second loop of [strings.TrimSpace], over the bytes from the end
    backwards. *)
Fixpoint trimEnd (reversed : bytes) : bytes :=
  match reversed with
  | [] => []
  | c :: reversed' =>
      if (utf8.RuneSelf <=? to_N c)%N
      then TrimRightFunc_IsSpace (rev reversed)
      else if asciiSpace c then trimEnd reversed'
           else rev reversed
  end.

(** [strings.TrimSpace]: the first loop, over the bytes from the start,
    and then the second. *)
Fixpoint TrimSpace (s : bytes) : bytes :=
  match s with
  | [] => []
  | c :: s' =>
      if (utf8.RuneSelf <=? to_N c)%N then TrimFunc_IsSpace s
      else if asciiSpace c then TrimSpace s'
           else trimEnd (rev s)
  end.

End Unicode.

End strings_.

(** ** Package [urns] *)
Module urns.

Local Open Scope Z_scope.

(** [URN] represents a Universal Resource Name, a Go string. *)
Definition URN : Type := bytes.

Definition TelScheme : bytes := lit "tel".
Definition FacebookScheme : bytes := lit "facebook".
Definition TelegramScheme : bytes := lit "telegram".
Definition TwitterScheme : bytes := lit "twitter".
Definition TwitterIDScheme : bytes := lit "twitterid".
Definition ViberScheme : bytes := lit "viber".
Definition LineScheme : bytes := lit "line".
Definition JiochatScheme : bytes := lit "jiochat".
Definition EmailScheme : bytes := lit "mailto".
Definition ExternalScheme : bytes := lit "ext".

(** The map [validSchemes], key by key. *)
Definition validSchemes : list (bytes * bool) :=
  [(TelScheme, true); (FacebookScheme, true); (TelegramScheme, true);
   (TwitterScheme, true); (TwitterIDScheme, true); (ViberScheme, true);
   (LineScheme, true); (JiochatScheme, true); (EmailScheme, true);
   (ExternalScheme, true)].

(** [m[key]] on a [map[string]bool]: [false] for a missing key. *)
Definition lookup (key : bytes) (m : list (bytes * bool)) : bool :=
  match find (fun kv => strings_.eqb (fst kv) key) m with
  | Some (_, v) => v
  | None => false
  end.

(** [Path] returns the path portion for the URN. *)
Definition Path (u : URN) : bytes :=
  let parts := bytes_.SplitN2 u (lit ":") in
  if (List.length parts =? 2)%nat then
    let pathParts := bytes_.SplitN2 (nth 1 parts []) (lit "#") in
    if (List.length pathParts =? 2)%nat then nth 0 pathParts []
    else nth 1 parts []
  else u.

(** [Scheme] returns the scheme portion for the URN. *)
Definition Scheme (u : URN) : bytes :=
  let parts := bytes_.SplitN2 u (lit ":") in
  if (List.length parts =? 2)%nat then nth 0 parts [] else [].

(** [Display] returns the display portion for the URN (if any). *)
Definition Display (u : URN) : bytes :=
  let parts := bytes_.SplitN2 u (lit ":") in
  if (List.length parts =? 2)%nat then
    let pathParts := bytes_.SplitN2 (nth 1 parts []) (lit "#") in
    if (List.length pathParts =? 2)%nat then nth 1 pathParts [] else []
  else [].

(** [Identity] returns the URN with any display attributes stripped. *)
Definition Identity (u : URN) : bytes :=
  let parts := bytes_.SplitN2 u (lit "#") in
  if (List.length parts =? 2)%nat then nth 0 parts [] else u.

(** [String]. *)
Definition String_ (u : URN) : bytes := u.

(** [NilURN]. *)
Definition NilURN : URN := [].

(** [strconv.FormatInt(identifier, 10)]. *)
Definition FormatInt (z : Z) : bytes :=
  lit (NilZero.string_of_int (Z.to_int z)).

(** The characters of a decimal rendering: digits and the minus sign. *)
Definition decimalChar (c : byte) : bool :=
  Byte.eqb c "-"%byte || ((0x30 <=? to_N c) && (to_N c <=? 0x39))%N.

(** The integer of a decimal rendering, [strconv.ParseInt(s, 10, 64)] on
    what [FormatInt] gives. *)
Definition readInt (s : bytes) : option Z :=
  option_map Z.of_int (NilZero.int_of_string (string_of_list_byte s)).

(** A byte the expression [telRegex], the class of everything but digits
    and lower-case letters, does not match. *)
Definition telChar (c : byte) : bool :=
  ((0x30 <=? to_N c) && (to_N c <=? 0x39)
   || (0x61 <=? to_N c) && (to_N c <=? 0x7A))%N.

(** [telRegex.ReplaceAllString(s, "")]: every rune the class matches is
    dropped; a byte that is no ASCII byte belongs to a rune outside the
    ASCII range or is an invalid encoding, both of which the class matches,
    so that the digits and lower-case letters are what is left. *)
Definition telRegex_strip (s : bytes) : bytes := filter telChar s.

Section Libraries.

Variable Map_ToLower : bytes -> bytes.
Variable TrimFunc_IsSpace : bytes -> bytes.
Variable TrimRightFunc_IsSpace : bytes -> bytes.

(** Package [phonenumbers]: the parsed numbers, [Parse(number, country)]
    with [None] for an error, [IsValidNumber] and
    [Format(number, E164)]. *)
Variable PhoneNumber : Type.
Variable phonenumbers_Parse : bytes -> bytes -> option PhoneNumber.
Variable phonenumbers_IsValidNumber : PhoneNumber -> bool.
Variable phonenumbers_FormatE164 : PhoneNumber -> bytes.

(** [newURN]. *)
Definition newURN (scheme path display : bytes) : URN :=
  let urn := scheme ++ lit ":" ++ path in
  if negb (strings_.eqb display [])
  then urn ++ lit "#" ++ strings_.ToLower Map_ToLower display
  else urn.

(** [NewURNFromParts]. *)
Definition NewURNFromParts (scheme path display : bytes)
  : URN * option bytes :=
  let scheme := strings_.ToLower Map_ToLower scheme in
  if negb (lookup scheme validSchemes)
  then (NilURN, Some (lit "invalid scheme '" ++ scheme ++ lit "'"))
  else (newURN scheme path display, None).

(** [NewTelegramURN]. *)
Definition NewTelegramURN (identifier : Z) (display : bytes) : URN :=
  newURN TelegramScheme (FormatInt identifier) display.

(** The number [NewTelURNForCountry] works on: trimmed, in lower case and
    stripped of everything but digits and letters. *)
Definition cleanNumber (number : bytes) : bytes :=
  telRegex_strip
    (strings_.ToLower Map_ToLower
       (strings_.TrimSpace TrimFunc_IsSpace TrimRightFunc_IsSpace number)).

(** The number it hands to [phonenumbers.Parse]: with a plus in front if
    it looks like it could be a fully qualified number. *)
Definition parseNumber (number : bytes) : bytes :=
  if (11 <=? List.length number)%nat
     && negb (bytes_.HasPrefix number (lit "+")
              || bytes_.HasPrefix number (lit "0"))
  then lit "+" ++ number
  else number.

(** [NewTelURNForCountry]. *)
Definition NewTelURNForCountry (number country : bytes) : URN :=
  let number := cleanNumber number in
  match phonenumbers_Parse (parseNumber number) country with
  | None => newURN TelScheme number []
  | Some normalized =>
      if phonenumbers_IsValidNumber normalized
      then newURN TelScheme (phonenumbers_FormatE164 normalized) []
      else newURN TelScheme number []
  end.

End Libraries.

(** *** Sample libraries *)

(** A lower-casing that knows ASCII only. *)
Definition asciiLower (s : bytes) : bytes := map strings_.lowerASCII s.

(** A parser that knows no number, and one that takes every number as it
    is. *)
Definition parsesNothing (_ _ : bytes) : option bytes := None.

Definition parsesAll (number _ : bytes) : option bytes := Some number.

End urns.

(** ** Package [encoding/base64] *)
Module base64.

Local Open Scope Z_scope.

(** The alphabet of [StdEncoding] and its padding character. *)
Definition encodeStd : bytes :=
  lit "ABCDEFGHIJKLMNOPQRSTUVWXYZabcdefghijklmnopqrstuvwxyz0123456789+/".

Definition StdPadding : byte := "="%byte.

(** [uint(b)]. *)
Definition uint (b : byte) : Z := Z.of_N (to_N b).

(** [enc.encode[i]]. *)
Definition encode (i : Z) : byte := nth (Z.to_nat i) encodeStd x00.

(** [StdEncoding.Encode]: three source bytes give four characters, and
    a last block of one or two bytes is padded. *)
Fixpoint Encode (src : bytes) : bytes :=
  match src with
  | [] => []
  | [s0] =>
      let val := Z.shiftl (uint s0) 16 in
      [encode (Z.land (Z.shiftr val 18) 0x3F);
       encode (Z.land (Z.shiftr val 12) 0x3F);
       StdPadding; StdPadding]
  | [s0; s1] =>
      let val := Z.lor (Z.shiftl (uint s0) 16) (Z.shiftl (uint s1) 8) in
      [encode (Z.land (Z.shiftr val 18) 0x3F);
       encode (Z.land (Z.shiftr val 12) 0x3F);
       encode (Z.land (Z.shiftr val 6) 0x3F);
       StdPadding]
  | s0 :: s1 :: s2 :: rest =>
      let val :=
        Z.lor (Z.lor (Z.shiftl (uint s0) 16) (Z.shiftl (uint s1) 8))
          (uint s2) in
      encode (Z.land (Z.shiftr val 18) 0x3F)
      :: encode (Z.land (Z.shiftr val 12) 0x3F)
      :: encode (Z.land (Z.shiftr val 6) 0x3F)
      :: encode (Z.land val 0x3F)
      :: Encode rest
  end.

(** [StdEncoding.EncodeToString]. *)
Definition EncodeToString (src : bytes) : bytes := Encode src.

(** The place of a character in the alphabet. *)
Fixpoint indexOf (c : byte) (l : bytes) : Z :=
  match l with
  | [] => 0
  | x :: l' => if Byte.eqb x c then 0 else 1 + indexOf c l'
  end.

(** The byte of a number below 256. *)
Definition byteOf (z : Z) : byte :=
  match Byte.of_N (Z.to_N z) with
  | Some b => b
  | None => x00
  end.

(** Reading a padded encoding back, four characters at a time; the
    inverse of [Encode] that the proofs use. *)
Fixpoint readBack (s : bytes) : bytes :=
  match s with
  | c0 :: c1 :: c2 :: c3 :: rest =>
      let i0 := indexOf c0 encodeStd in
      let i1 := indexOf c1 encodeStd in
      let i2 := indexOf c2 encodeStd in
      let i3 := indexOf c3 encodeStd in
      if Byte.eqb c2 StdPadding then [byteOf (i0 * 4 + i1 / 16)]
      else if Byte.eqb c3 StdPadding
           then [byteOf (i0 * 4 + i1 / 16);
                 byteOf (i1 mod 16 * 16 + i2 / 4)]
           else byteOf (i0 * 4 + i1 / 16)
                :: byteOf (i1 mod 16 * 16 + i2 / 4)
                :: byteOf (i2 mod 4 * 64 + i3)
                :: readBack rest
  | _ => []
  end.

End base64.

(** ** Package [httpx] *)
Module httpx.

Local Open Scope Z_scope.

(** A Go [error], by its message. *)
Definition error : Type := string.

(** [time.Duration] and [time.Time], in ticks. *)
Definition Duration : Type := Z.
Definition Time : Type := Z.

(** Go's [int] and [int64] on the 64-bit platforms: the range and the
    wrap-around of an addition. *)
Definition MaxInt64 : Z := 2 ^ 63 - 1.
Definition MinInt64 : Z := - 2 ^ 63.
Definition wrap64 (z : Z) : Z := (z + 2 ^ 63) mod 2 ^ 64 - 2 ^ 63.
Definition int64_add (a b : Z) : Z := wrap64 (a + b).

(** [strconv]'s decimal rendering of an integer, the [%d] of [Errorf]. *)
Definition itoa (z : Z) : string := NilZero.string_of_int (Z.to_int z).

(** [strings.HasPrefix] and [strings.Contains]. *)
Fixpoint hasPrefix (s prefix : string) {struct prefix} : bool :=
  match prefix, s with
  | EmptyString, _ => true
  | String p prefix', String c s' => Ascii.eqb c p && hasPrefix s' prefix'
  | String _ _, EmptyString => false
  end.

Fixpoint contains (s sub : string) : bool :=
  hasPrefix s sub
  || match s with
     | EmptyString => false
     | String _ s' => contains s' sub
     end.

(** The message [msg] names [s]: [s] occurs in it. *)
Definition names (msg s : string) : bool := contains msg s.

(** An [*http.Request], by what the executor reads of it: the method and
    [request.URL.Hostname()]. *)
Record Request : Type := {
  Method : string;
  URL_Hostname : string
}.

(** A response body, an [io.ReadCloser]: the stream delivers [content] and
    then ends, with [io.EOF] when [failure] is [None] and with that read
    error otherwise. An [io.Reader] may report the end of its stream from
    the [Read] that delivers the last bytes or from the next one, which
    delivers none: [sameCall] tells which. [stream] tells the streams of a
    call apart. *)
Record ReadCloser : Type := {
  stream : nat;
  content : bytes;
  failure : option error;
  sameCall : bool
}.

(** An [*http.Response]. *)
Record Response : Type := {
  StatusCode : Z;
  Body : ReadCloser
}.

(** What a call does to the outside, in order. *)
Inductive Event : Type :=
| Dispatched (attempt : nat)
| Slept (d : Duration)
| ReadFrom (s : nat) (n : nat)
| Closed (s : nat).

(** The state a call runs in: how often the Requestor and the clock were
    used, and the events so far, oldest first. *)
Record World : Type := {
  invocations : nat;
  clockReads : nat;
  events : list Event
}.

Definition emit (e : Event) (w : World) : World :=
  {| invocations := invocations w;
     clockReads := clockReads w;
     events := events w ++ [e] |}.

Definition initial : World :=
  {| invocations := 0%nat; clockReads := 0%nat; events := [] |}.

(** Modelled from the spec: the type [RetryConfig] is declared outside
    [http.go]; the executor uses its three operations [MaxRetries()],
    [Backoff(attemptIndex)] and [ShouldRetry(request, response, backoff)],
    a policy that is stateless across calls. *)
Record RetryConfig : Type := {
  MaxRetries : Z;
  Backoff : Z -> Duration;
  ShouldRetry : Request -> option Response -> Duration -> bool
}.

(** Modelled from the spec: the type [AccessConfig] is declared outside
    [http.go]; the executor uses its one operation [Allow(request)], which
    answers with a boolean and an error. *)
Record AccessConfig : Type := {
  Allow : Request -> bool * option error
}.

(** How a Go call ends: it returns, it panics on a nil pointer, or (in the
    model only) the loop ran out of fuel. *)
Inductive Outcome (A : Type) : Type :=
| Returned (a : A)
| NilDereference
| OutOfFuel.

Arguments Returned {A} a.
Arguments NilDereference {A}.
Arguments OutOfFuel {A}.

(** [Trace] holds the complete trace of an HTTP request/response; a nil
    slice is the empty list, a nil [Response] is [None]. *)
Record Trace : Type := {
  Request_ : Request;
  RequestTrace : bytes;
  Response_ : option Response;
  ResponseTrace : bytes;
  ResponseBody : bytes;
  StartTime : Time;
  EndTime : Time;
  Retries : Z
}.

(** *** The sanitizer *)

(** [replaceNullChars]. *)
Definition replaceNullChars (b : bytes) : bytes :=
  bytes_.ReplaceAll1 b NUL replacementChar.

(** [santizedTrace]: the header section made valid, then the body if it
    is valid UTF-8 and the placeholder otherwise. *)
Definition santizedTrace (header body : bytes) (bodyPlaceHolder : bytes)
  : bytes :=
  replaceNullChars (bytes_.ToValidUTF8 header replacementChar)
  ++ (if utf8.Valid body then replaceNullChars body else bodyPlaceHolder).

(** The separator of the header and body sections of a dump. *)
Definition CRLFCRLF : bytes := [x0d; x0a; x0d; x0a].

(** The two sections [SanitizedRequest] cuts the request dump into:
    [parts[0]] with the separator appended, and [parts[1]] when there is
    one, a nil body otherwise. *)
Definition requestSections (t : Trace) : bytes * bytes :=
  let parts := bytes_.SplitN2 (RequestTrace t) CRLFCRLF in
  let headers := hd [] parts ++ CRLFCRLF in
  let body := if (1 <? List.length parts)%nat then nth 1 parts [] else [] in
  (headers, body).

(** [SanitizedRequest]. *)
Definition SanitizedRequest (t : Trace) (placeholder : bytes) : bytes :=
  let '(headers, body) := requestSections t in
  santizedTrace headers body placeholder.

(** [SanitizedResponse]. *)
Definition SanitizedResponse (t : Trace) (placeholder : bytes) : bytes :=
  santizedTrace (ResponseTrace t) (ResponseBody t) placeholder.

(** *** The bounded body reader *)

(** [io.ReadAll(body)]: everything the stream delivers, and its read
    error if it ends with one. *)
Definition ReadAll (body : ReadCloser) : bytes * option error :=
  (content body, failure body).

(** [io.ReadAll(io.LimitReader(body, n))] with the [N] left in the
    [LimitedReader] afterwards. [LimitedReader.Read] answers [io.EOF]
    without reading once [N <= 0]; otherwise it reads at most [N] bytes
    from the body, takes the bytes read off [N] and hands on the error of
    that [Read]; [io.ReadAll] reads until an error, which it returns
    unless it is [io.EOF]. So a reader with [n <= 0] is at its end at
    once; of a longer stream [n] bytes are read and its end is never
    reached; a shorter stream is read to its end, read error included;
    and the end of a stream of just [n] bytes is seen only if it comes
    with the last bytes, since no further [Read] reaches the body. *)
Definition LimitedReadAll (body : ReadCloser) (n : Z)
  : bytes * option error * Z :=
  if n <=? 0 then ([], None, n)
  else if n <? Z.of_nat (List.length (content body))
       then (firstn (Z.to_nat n) (content body), None, 0)
       else if n =? Z.of_nat (List.length (content body))
            then (content body,
                  if sameCall body then failure body else None, 0)
            else (content body, failure body,
                  n - Z.of_nat (List.length (content body))).

(** The error of a body over the limit. *)
Definition bodyTooBig (maxBodyBytes : Z) : error :=
  ("webhook response body exceeds " ++ itoa maxBodyBytes ++ " bytes limit")
  %string.

(** [readBody]: the deferred [Close] runs on every return. *)
Definition readBody (response : Response) (maxBodyBytes : Z) (w : World)
  : (bytes * option error) * World :=
  let body := Body response in
  if 0 <? maxBodyBytes then
    let '(bodyBytes, err, N) :=
      LimitedReadAll body (int64_add maxBodyBytes 1) in
    let w1 := emit (ReadFrom (stream body) (List.length bodyBytes)) w in
    match err with
    | Some e => (([], Some e), emit (Closed (stream body)) w1)
    | None =>
        if N <=? 0
        then (([], Some (bodyTooBig maxBodyBytes)),
              emit (Closed (stream body)) w1)
        else ((bodyBytes, None), emit (Closed (stream body)) w1)
    end
  else
    let '(bodyBytes, err) := ReadAll body in
    let w1 := emit (ReadFrom (stream body) (List.length bodyBytes)) w in
    ((bodyBytes, err), emit (Closed (stream body)) w1).

(** *** Basic authentication *)

(** [BasicAuth]: the encoding of [username + ":" + password]. *)
Definition BasicAuth (username password : bytes) : bytes :=
  base64.EncodeToString (username ++ lit ":" ++ password).

(** A string holds a colon. *)
Definition hasColon (s : bytes) : bool := existsb (Byte.eqb ":"%byte) s.

(** *** The executor *)
Section Executor.

(** [*http.Client], handed to the Requestor as it is. *)
Variable Client : Type.

(** [currentRequestor.Do], by the number of earlier invocations: it
    answers with a response, an error, or both. *)
Variable currentRequestor :
  nat -> Client -> Request -> option Response * option error.

(** [httputil.DumpRequestOut(request, true)]. *)
Variable DumpRequestOut : Request -> bytes + error.

(** [httputil.DumpResponse(response, false)]. *)
Variable DumpResponse : Response -> bytes + error.

(** [dates.Now()], by the number of earlier readings of the clock. *)
Variable dates_Now : nat -> Time.

Definition Now (w : World) : Time * World :=
  (dates_Now (clockReads w),
   {| invocations := invocations w;
      clockReads := S (clockReads w);
      events := events w |}).

(** One [currentRequestor.Do(client, request)]. *)
Definition dispatch (client : Client) (request : Request) (w : World)
  : (option Response * option error) * World :=
  (currentRequestor (invocations w) client request,
   {| invocations := S (invocations w);
      clockReads := clockReads w;
      events := events w ++ [Dispatched (invocations w)] |}).

(** The error of a denied request. *)
Definition denied (request : Request) : error :=
  ("request to " ++ URL_Hostname request ++ " denied")%string.

(** The test of the loop of [do]: the backoff to sleep when the call is
    to be retried, [None] when the loop breaks. *)
Definition retryAfter (retries : option RetryConfig) (request : Request)
    (response : option Response) (retry : Z) : option Duration :=
  match retries with
  | Some rc =>
      if retry <? MaxRetries rc then
        let backoff := Backoff rc retry in
        if ShouldRetry rc request response backoff then Some backoff
        else None
      else None
  | None => None
  end.

(** The loop of [do], one dispatch per unit of fuel. *)
Fixpoint doLoop (fuel : nat) (client : Client) (request : Request)
    (retries : option RetryConfig) (retry : Z) (w : World)
  : Outcome (option Response * Z * option error) * World :=
  match fuel with
  | O => (OutOfFuel, w)
  | S fuel' =>
      let '((response, err), w1) := dispatch client request w in
      match retryAfter retries request response retry with
      | Some backoff =>
          doLoop fuel' client request retries (int64_add retry 1)
            (emit (Slept backoff) w1)
      | None => (Returned (response, retry, err), w1)
      end
  end.

(** Fuel for every dispatch the loop can make. *)
Definition loopFuel (retries : option RetryConfig) : nat :=
  match retries with
  | Some rc => S (Z.to_nat (MaxRetries rc))
  | None => 1%nat
  end.

(** The access check at the head of [do]: the error the call is refused
    with, [None] when it goes on to dispatch. *)
Definition refusal (access : option AccessConfig) (request : Request)
  : option error :=
  match access with
  | Some ac =>
      let '(allowed, err) := Allow ac request in
      match err with
      | Some e => Some e
      | None => if negb allowed then Some (denied request) else None
      end
  | None => None
  end.

(** [do]. *)
Definition do (client : Client) (request : Request)
    (retries : option RetryConfig) (access : option AccessConfig)
    (w : World)
  : Outcome (option Response * Z * option error) * World :=
  match refusal access request with
  | Some e => (Returned (None, 0, Some e), w)
  | None => doLoop (loopFuel retries) client request retries 0 w
  end.

(** [Do]. *)
Definition Do (client : Client) (request : Request)
    (retries : option RetryConfig) (access : option AccessConfig)
    (w : World)
  : Outcome (option Response * option error) * World :=
  match do client request retries access w with
  | (Returned (r, _, err), w') => (Returned (r, err), w')
  | (NilDereference, w') => (NilDereference, w')
  | (OutOfFuel, w') => (OutOfFuel, w')
  end.

(** [dumpResponse]. *)
Definition dumpResponse (response : Response) (maxBodyBytes : Z)
    (w : World) : (bytes * bytes * option error) * World :=
  match DumpResponse response with
  | inr err => (([], [], Some err), w)
  | inl responseTrace =>
      let '((responseBody, err), w') := readBody response maxBodyBytes w in
      match err with
      | Some e => ((responseTrace, [], Some e), w')
      | None => ((responseTrace, responseBody, None), w')
      end
  end.

(** [DoTrace]. A nil response that comes without an error is handed to
    [dumpResponse], which dereferences it. *)
Definition DoTrace (client : Client) (request : Request)
    (retries : option RetryConfig) (access : option AccessConfig)
    (maxBodyBytes : Z) (w : World)
  : Outcome (option Trace * option error) * World :=
  match DumpRequestOut request with
  | inr err => (Returned (None, Some err), w)
  | inl requestTrace =>
      let '(startTime, w1) := Now w in
      match do client request retries access w1 with
      | (Returned (response, retryCount, err), w2) =>
          let '(endTime, w3) := Now w2 in
          let trace (resp : option Response) (rt rb : bytes) :=
            {| Request_ := request;
               RequestTrace := requestTrace;
               Response_ := resp;
               ResponseTrace := rt;
               ResponseBody := rb;
               StartTime := startTime;
               EndTime := endTime;
               Retries := retryCount |} in
          match err with
          | Some e => (Returned (Some (trace None [] []), Some e), w3)
          | None =>
              match response with
              | None => (NilDereference, w3)
              | Some r =>
                  let '((responseTrace, responseBody, err'), w4) :=
                    dumpResponse r maxBodyBytes w3 in
                  (Returned
                     (Some (trace (Some r) responseTrace responseBody),
                      err'),
                   w4)
              end
          end
      | (NilDereference, w2) => (NilDereference, w2)
      | (OutOfFuel, w2) => (OutOfFuel, w2)
      end
  end.

End Executor.

Arguments dispatch {Client}.
Arguments doLoop {Client}.
Arguments do {Client}.
Arguments Do {Client}.
Arguments DoTrace {Client}.

(** The events of the loop of [do]: a dispatch or a sleep. *)
Definition loopEvent (e : Event) : bool :=
  match e with
  | Dispatched _ | Slept _ => true
  | ReadFrom _ _ | Closed _ => false
  end.

(** The stream [s] is closed somewhere in the events. *)
Definition closedIn (s : nat) (evs : list Event) : bool :=
  existsb (fun e => match e with Closed s' => Nat.eqb s' s | _ => false end)
    evs.

(** The call passes the access check: there is no access configuration,
    or [Allow] answers [true] without an error. *)
Definition passes (access : option AccessConfig) (request : Request) : bool :=
  match access with
  | None => true
  | Some ac =>
      match Allow ac request with
      | (true, None) => true
      | _ => false
      end
  end.

(** The invocations of the Requestor between two states. *)
Definition dispatches (w w' : World) : Z :=
  Z.of_nat (invocations w') - Z.of_nat (invocations w).

(** ** Sample data *)

Definition CRLF : bytes := [x0d; x0a].

(** The dump of a request with a body. *)
Definition postDump : bytes :=
  lit "POST /hook HTTP/1.1" ++ CRLF ++ lit "Host: example.com" ++ CRLFCRLF
  ++ lit "{}".

(** A dump cut short before the blank line. *)
Definition cutDump : bytes := lit "GET / HTTP/1.1" ++ CRLF ++ lit "Host: a".

(** The header section of a response. *)
Definition okHeaders : bytes :=
  lit "HTTP/1.1 200 OK" ++ CRLF ++ lit "Content-Type: image/png" ++ CRLFCRLF.

(** The first bytes of a PNG image. *)
Definition pngBody : bytes := [x89; x50; x4e; x47; x0d; x0a; x1a; x0a].

Definition hookRequest : Request :=
  {| Method := "POST"; URL_Hostname := "example.com" |}.

Definition traceOf (requestTrace responseTrace responseBody : bytes)
  : Trace :=
  {| Request_ := hookRequest;
     RequestTrace := requestTrace;
     Response_ := None;
     ResponseTrace := responseTrace;
     ResponseBody := responseBody;
     StartTime := 0;
     EndTime := 0;
     Retries := 0 |}.

Definition metadataRequest : Request :=
  {| Method := "GET"; URL_Hostname := "169.254.169.254" |}.

Definition bodyOf (s : nat) (b : bytes) : ReadCloser :=
  {| stream := s; content := b; failure := None; sameCall := false |}.

Definition responseOf (code : Z) (s : nat) (b : bytes) : Response :=
  {| StatusCode := code; Body := bodyOf s b |}.

(** A Requestor that fails twice and then answers 200. *)
Definition flaky (attempt : nat) (_ : unit) (_ : Request)
  : option Response * option error :=
  match attempt with
  | 0%nat | 1%nat => (None, Some "connection refused"%string)
  | _ => (Some (responseOf 200 attempt (lit "ok")), None)
  end.

(** A Requestor that answers 503 once and then 200. *)
Definition busy (attempt : nat) (_ : unit) (_ : Request)
  : option Response * option error :=
  match attempt with
  | 0%nat => (Some (responseOf 503 attempt (lit "busy")), None)
  | _ => (Some (responseOf 200 attempt (lit "ok")), None)
  end.

(** A Requestor that always answers with [r]. *)
Definition serves (r : Response) (_ : nat) (_ : unit) (_ : Request)
  : option Response * option error :=
  (Some r, None).

(** Two retries, for transport errors and for every status but 200. *)
Definition twice : RetryConfig :=
  {| MaxRetries := 2;
     Backoff := fun n => 100 * (n + 1);
     ShouldRetry := fun _ response _ =>
       match response with
       | None => true
       | Some r => negb (StatusCode r =? 200)
       end |}.

Definition denyAll : AccessConfig := {| Allow := fun _ => (false, None) |}.

Definition allowAll : AccessConfig := {| Allow := fun _ => (true, None) |}.

Definition brokenAccess : AccessConfig :=
  {| Allow := fun _ => (false, Some "lookup failed"%string) |}.

Definition dumpsRequest (_ : Request) : bytes + error := inl postDump.

Definition failsRequestDump (_ : Request) : bytes + error :=
  inr "http: invalid Content-Length"%string.

Definition dumpsHeaders (_ : Response) : bytes + error := inl okHeaders.

Definition failsHeaderDump (_ : Response) : bytes + error :=
  inr "http: ContentLength with Body length 0"%string.

Definition ticking (n : nat) : Time := 1000 + Z.of_nat n.

Definition tenBytes : bytes := lit "0123456789".

Definition elevenBytes : bytes := lit "0123456789A".

(** A response whose body breaks off with a read error after [b], in a
    [Read] of its own. *)
Definition brokenResponse (s : nat) (b : bytes) : Response :=
  {| StatusCode := 200;
     Body := {| stream := s; content := b;
                failure := Some "unexpected EOF"%string;
                sameCall := false |} |}.

(** A response whose body breaks off with a read error that comes with
    the last bytes of [b]. *)
Definition cutOffResponse (s : nat) (b : bytes) : Response :=
  {| StatusCode := 200;
     Body := {| stream := s; content := b;
                failure := Some "unexpected EOF"%string;
                sameCall := true |} |}.


(** The events of a call that retries [n] more times, from the attempt
    [i] on with the retry counter at [k]: each attempt but the last is
    followed by the sleep of its backoff. *)
Fixpoint schedule (rc : RetryConfig) (i : nat) (k : Z) (n : nat)
  : list Event :=
  match n with
  | O => [Dispatched i]
  | S n' =>
      Dispatched i :: Slept (Backoff rc k) :: schedule rc (S i) (k + 1) n'
  end.

(** A retry configuration that retries whatever the answer is. *)
Definition stubborn (n : Z) : RetryConfig :=
  {| MaxRetries := n;
     Backoff := fun k => 50 * (k + 1);
     ShouldRetry := fun _ _ _ => true |}.

(** A Requestor whose answers are all errors. *)
Definition refusesAll (_ : nat) (_ : unit) (_ : Request)
  : option Response * option error :=
  (None, Some "connection refused"%string).

(** A retry configuration that asks for no retry at all. *)
Definition never : RetryConfig :=
  {| MaxRetries := 0;
     Backoff := fun _ => 1;
     ShouldRetry := fun _ _ _ => true |}.

(** A request dump whose body is the start of a PNG image and holds a
    blank line of its own. *)
Definition uploadDump : bytes :=
  lit "PUT /img HTTP/1.1" ++ CRLF ++ lit "Host: example.com" ++ CRLFCRLF
  ++ pngBody ++ CRLFCRLF ++ lit "tail".

(** The trace of a call answered with ten bytes, and of one whose body
    breaks off. *)
Definition tenByteTrace : Trace :=
  Build_Trace hookRequest postDump (Some (responseOf 200 7 tenBytes))
    okHeaders tenBytes 1000 1001 0.

Definition brokenTrace : Trace :=
  Build_Trace hookRequest postDump (Some (brokenResponse 7 tenBytes))
    okHeaders [] 1000 1001 0.

Example Valid_replacementChar : utf8.Valid replacementChar = true.
Proof. reflexivity. Qed.

Example Valid_ascii : utf8.Valid (lit "HTTP/1.1 200 OK") = true.
Proof. reflexivity. Qed.

Example Valid_overlong : utf8.Valid [xc0; x80] = false.
Proof. reflexivity. Qed.

Example Valid_surrogate : utf8.Valid [xed; xa0; x80] = false.
Proof. reflexivity. Qed.

Example Valid_truncated : utf8.Valid [xe2; x82] = false.
Proof. reflexivity. Qed.

Example Valid_euro : utf8.Valid [xe2; x82; xac] = true.
Proof. reflexivity. Qed.

Example ToValidUTF8_run :
  bytes_.ToValidUTF8 [x61; xff; xfe; x62; xc0; x63] replacementChar
  = [x61] ++ replacementChar ++ [x62] ++ replacementChar ++ [x63].
Proof. reflexivity. Qed.

Example ToValidUTF8_truncated :
  bytes_.ToValidUTF8 [xe2; x82; x41] replacementChar
  = replacementChar ++ [x41].
Proof. reflexivity. Qed.

Example SplitN2_found :
  bytes_.SplitN2 (lit "a--b--c") (lit "--") = [lit "a"; lit "b--c"].
Proof. reflexivity. Qed.

Example SplitN2_missing :
  bytes_.SplitN2 (lit "abc") (lit "--") = [lit "abc"].
Proof. reflexivity. Qed.

(** ** Facts about the decoder *)

Lemma first_as_iff (c : byte) :
  utf8.first c = utf8.as_ <-> (to_N c < 0x80)%N.
Proof.
  unfold utf8.first.
  repeat match goal with
         | |- context [(?a <? ?b)%N] => destruct (N.ltb_spec a b)
         | |- context [(?a =? ?b)%N] => destruct (N.eqb_spec a b)
         end; split; intro H'; try discriminate; try lia; reflexivity.
Qed.

Lemma first_lead_bounds (c : byte) :
  match utf8.first c with
  | utf8.as_ => (to_N c < 0x80)%N
  | utf8.xx => (0x80 <= to_N c)%N
  | utf8.two lo _ | utf8.three lo _ | utf8.four lo _ =>
      (0x80 <= to_N c)%N /\ (0x80 <= lo)%N
  end.
Proof.
  unfold utf8.first, utf8.locb.
  repeat match goal with
         | |- context [(?a <? ?b)%N] => destruct (N.ltb_spec a b)
         | |- context [(?a =? ?b)%N] => destruct (N.eqb_spec a b)
         end; lia.
Qed.

Lemma accepted_bounds (lo hi : N) (b : byte) :
  utf8.accepted lo hi b = true -> (lo <= to_N b <= hi)%N.
Proof.
  unfold utf8.accepted. intros H.
  apply andb_true_iff in H. destruct H as [H1 H2].
  apply N.leb_le in H1. apply N.leb_le in H2. lia.
Qed.

Lemma high_not_NUL (b : byte) : (0x80 <= to_N b)%N -> Byte.eqb b NUL = false.
Proof.
  intros H. destruct (Byte.eqb b NUL) eqn:E; [|reflexivity].
  apply byte_dec_bl in E. subst b. vm_compute in H. congruence.
Qed.

Lemma high_not_as (b : byte) : (0x80 <= to_N b)%N -> utf8.first b <> utf8.as_.
Proof. intros H E. apply first_as_iff in E. lia. Qed.

Lemma NUL_is_as : utf8.first NUL = utf8.as_.
Proof. reflexivity. Qed.

(** The runes of a byte sequence, one case per way the decoder advances:
    an ASCII byte, a byte of an invalid encoding (size 1), and the
    well-formed sequences of two, three and four bytes. *)
Lemma runes_ind (P : bytes -> Prop) :
  P [] ->
  (forall c r, utf8.first c = utf8.as_ -> P r -> P (c :: r)) ->
  (forall c r, utf8.first c <> utf8.as_ ->
               utf8.DecodeRune_size (c :: r) = 1%nat -> P r -> P (c :: r)) ->
  (forall c b1 r lo hi,
      utf8.first c = utf8.two lo hi -> utf8.accepted lo hi b1 = true ->
      P r -> P (c :: b1 :: r)) ->
  (forall c b1 b2 r lo hi,
      utf8.first c = utf8.three lo hi -> utf8.accepted lo hi b1 = true ->
      utf8.accepted utf8.locb utf8.hicb b2 = true ->
      P r -> P (c :: b1 :: b2 :: r)) ->
  (forall c b1 b2 b3 r lo hi,
      utf8.first c = utf8.four lo hi -> utf8.accepted lo hi b1 = true ->
      utf8.accepted utf8.locb utf8.hicb b2 = true ->
      utf8.accepted utf8.locb utf8.hicb b3 = true ->
      P r -> P (c :: b1 :: b2 :: b3 :: r)) ->
  forall s, P s.
Proof.
  intros Hnil Has Hbad H2 H3 H4 s.
  assert (G : forall n (l : bytes), (List.length l <= n)%nat -> P l).
  { induction n as [|n IH]; intros l Hl.
    - destruct l; [exact Hnil | simpl in Hl; lia].
    - destruct l as [|c r]; [exact Hnil|]. simpl in Hl.
      assert (Pr : P r) by (apply IH; lia).
      destruct (utf8.first c) eqn:Ec.
      + apply Has; assumption.
      + apply Hbad; try assumption; [congruence | simpl; rewrite Ec; reflexivity].
      + destruct r as [|b1 r1];
          [apply Hbad; try assumption; [congruence | simpl; rewrite Ec; reflexivity]|].
        destruct (utf8.accepted lo hi b1) eqn:E1.
        * eapply H2; eauto. apply IH. simpl in Hl. lia.
        * apply Hbad; try assumption; [congruence | simpl; rewrite Ec, E1; reflexivity].
      + destruct r as [|b1 [|b2 r2]];
          try (apply Hbad; try assumption; [congruence | simpl; rewrite Ec; reflexivity]).
        destruct (utf8.accepted lo hi b1) eqn:E1;
          [destruct (utf8.accepted utf8.locb utf8.hicb b2) eqn:E2|].
        * eapply H3; eauto. apply IH. simpl in Hl. lia.
        * apply Hbad; try assumption; [congruence | simpl; rewrite Ec, E1, E2; reflexivity].
        * apply Hbad; try assumption; [congruence | simpl; rewrite Ec, E1; reflexivity].
      + destruct r as [|b1 [|b2 [|b3 r3]]];
          try (apply Hbad; try assumption; [congruence | simpl; rewrite Ec; reflexivity]).
        destruct (utf8.accepted lo hi b1) eqn:E1;
          [destruct (utf8.accepted utf8.locb utf8.hicb b2) eqn:E2;
           [destruct (utf8.accepted utf8.locb utf8.hicb b3) eqn:E3|]|].
        * eapply H4; eauto. apply IH. simpl in Hl. lia.
        * apply Hbad; try assumption; [congruence | simpl; rewrite Ec, E1, E2, E3; reflexivity].
        * apply Hbad; try assumption; [congruence | simpl; rewrite Ec, E1, E2; reflexivity].
        * apply Hbad; try assumption; [congruence | simpl; rewrite Ec, E1; reflexivity]. }
  apply (G (List.length s)). lia.
Qed.

(** Splits a byte that the decoder rejects into the shapes of the bytes
    that follow it. *)
Ltac rejected c r Hsz :=
  destruct (utf8.first c) eqn:?; try congruence; try reflexivity;
  destruct r as [|?b [|?b [|?b r]]]; cbn in Hsz; try reflexivity;
  repeat match type of Hsz with
         | context [utf8.accepted ?lo ?hi ?b] =>
             destruct (utf8.accepted lo hi b); cbn in Hsz
         end;
  try discriminate; try reflexivity.

Lemma Valid_rejected (c : byte) (r : bytes) :
  utf8.first c <> utf8.as_ -> utf8.DecodeRune_size (c :: r) = 1%nat ->
  utf8.Valid (c :: r) = false.
Proof.
  intros Hna Hsz. simpl in Hsz |- *. rejected c r Hsz.
Qed.

Lemma ToValidUTF8_rejected (inv : bool) (c : byte) (r rep : bytes) :
  utf8.first c <> utf8.as_ -> utf8.DecodeRune_size (c :: r) = 1%nat ->
  bytes_.ToValidUTF8_from inv (c :: r) rep
  = (if inv then [] else rep) ++ bytes_.ToValidUTF8_from true r rep.
Proof.
  intros Hna Hsz. simpl in Hsz.
  cbn [bytes_.ToValidUTF8_from]. rejected c r Hsz.
Qed.

(** One turn of the loop of [utf8.Valid], as the Go code takes it: an
    ASCII byte is skipped, a size of 1 on another byte is a failure, and a
    longer sequence is skipped whole. *)
Lemma Valid_step (c : byte) (r : bytes) :
  utf8.Valid (c :: r)
  = if (to_N c <? utf8.RuneSelf)%N then utf8.Valid r
    else if (utf8.DecodeRune_size (c :: r) =? 1)%nat then false
         else utf8.Valid (skipn (utf8.DecodeRune_size (c :: r)) (c :: r)).
Proof.
  unfold utf8.RuneSelf. pose proof (first_as_iff c) as A.
  cbn [utf8.Valid utf8.DecodeRune_size].
  destruct (N.ltb_spec (to_N c) 0x80) as [Hlt|Hge].
  - apply A in Hlt. rewrite Hlt. reflexivity.
  - destruct (utf8.first c) eqn:Ec;
      [pose proof (proj1 A eq_refl); lia | reflexivity | ..];
      destruct r as [|b1 [|b2 [|b3 r]]]; try reflexivity;
      repeat match goal with
             | |- context [utf8.accepted ?l ?h ?b] =>
                 destruct (utf8.accepted l h b); cbn [andb]
             end; reflexivity.
Qed.

(** One turn of the loop of [bytes.ToValidUTF8], as the Go code takes it:
    an ASCII byte is copied; on a size of 1 the replacement is written
    unless the previous byte was invalid too; a longer sequence is copied
    whole. *)
Lemma ToValidUTF8_from_step (inv : bool) (c : byte) (r rep : bytes) :
  bytes_.ToValidUTF8_from inv (c :: r) rep
  = if (to_N c <? utf8.RuneSelf)%N
    then c :: bytes_.ToValidUTF8_from false r rep
    else if (utf8.DecodeRune_size (c :: r) =? 1)%nat
         then (if inv then [] else rep)
              ++ bytes_.ToValidUTF8_from true r rep
         else firstn (utf8.DecodeRune_size (c :: r)) (c :: r)
              ++ bytes_.ToValidUTF8_from false
                   (skipn (utf8.DecodeRune_size (c :: r)) (c :: r)) rep.
Proof.
  unfold utf8.RuneSelf. pose proof (first_as_iff c) as A.
  cbn [bytes_.ToValidUTF8_from utf8.DecodeRune_size].
  destruct (N.ltb_spec (to_N c) 0x80) as [Hlt|Hge].
  - apply A in Hlt. rewrite Hlt. reflexivity.
  - destruct (utf8.first c) eqn:Ec;
      [pose proof (proj1 A eq_refl); lia | reflexivity | ..];
      destruct r as [|b1 [|b2 [|b3 r]]]; try reflexivity;
      repeat match goal with
             | |- context [utf8.accepted ?l ?h ?b] =>
                 destruct (utf8.accepted l h b); cbn [andb]
             end; reflexivity.
Qed.

(** Rewrites one step of [Valid] and of [ToValidUTF8_from] at a
    well-formed sequence. *)
Ltac accept_step :=
  repeat match goal with
         | H : utf8.first ?c = _ |- context [utf8.first ?c] => rewrite H
         | H : utf8.accepted ?lo ?hi ?b = true
           |- context [utf8.accepted ?lo ?hi ?b] => rewrite H
         end; cbn [andb].

Lemma Valid_app (a b : bytes) :
  utf8.Valid a = true -> utf8.Valid b = true -> utf8.Valid (a ++ b) = true.
Proof.
  intros Ha Hb. revert Ha.
  induction a as [| c r Has IH | c r Hna Hsz IH | c b1 r lo hi Hc H1 IH
                 | c b1 b2 r lo hi Hc H1 H2 IH
                 | c b1 b2 b3 r lo hi Hc H1 H2 H3 IH] using runes_ind.
  - intros _. exact Hb.
  - cbn [utf8.Valid app]. rewrite Has. exact IH.
  - rewrite (Valid_rejected _ _ Hna Hsz). discriminate.
  - cbn [utf8.Valid app]. accept_step. exact IH.
  - cbn [utf8.Valid app]. accept_step. exact IH.
  - cbn [utf8.Valid app]. accept_step. exact IH.
Qed.

(** [ToValidUTF8] returns valid UTF-8 whenever the replacement is. *)
Lemma Valid_ToValidUTF8_from (rep : bytes) :
  utf8.Valid rep = true ->
  forall s inv, utf8.Valid (bytes_.ToValidUTF8_from inv s rep) = true.
Proof.
  intros Hrep s.
  induction s as [| c r Has IH | c r Hna Hsz IH | c b1 r lo hi Hc H1 IH
                 | c b1 b2 r lo hi Hc H1 H2 IH
                 | c b1 b2 b3 r lo hi Hc H1 H2 H3 IH] using runes_ind;
    intros inv.
  - reflexivity.
  - cbn [bytes_.ToValidUTF8_from]. rewrite Has.
    cbn [utf8.Valid]. rewrite Has. apply IH.
  - rewrite (ToValidUTF8_rejected _ _ _ _ Hna Hsz).
    apply Valid_app; [destruct inv; [reflexivity | exact Hrep] | apply IH].
  - cbn [bytes_.ToValidUTF8_from]. accept_step.
    cbn [utf8.Valid]. accept_step. apply IH.
  - cbn [bytes_.ToValidUTF8_from]. accept_step.
    cbn [utf8.Valid]. accept_step. apply IH.
  - cbn [bytes_.ToValidUTF8_from]. accept_step.
    cbn [utf8.Valid]. accept_step. apply IH.
Qed.

(** [ToValidUTF8] leaves valid UTF-8 as it is. *)
Lemma ToValidUTF8_from_valid (rep s : bytes) :
  utf8.Valid s = true ->
  forall inv, bytes_.ToValidUTF8_from inv s rep = s.
Proof.
  induction s as [| c r Has IH | c r Hna Hsz IH | c b1 r lo hi Hc H1 IH
                 | c b1 b2 r lo hi Hc H1 H2 IH
                 | c b1 b2 b3 r lo hi Hc H1 H2 H3 IH] using runes_ind;
    intros Hv inv.
  - reflexivity.
  - cbn [utf8.Valid] in Hv. rewrite Has in Hv.
    cbn [bytes_.ToValidUTF8_from]. rewrite Has. f_equal. apply IH, Hv.
  - rewrite (Valid_rejected _ _ Hna Hsz) in Hv. discriminate.
  - cbn [utf8.Valid] in Hv. rewrite Hc, H1 in Hv. cbn [andb] in Hv.
    cbn [bytes_.ToValidUTF8_from]. accept_step. do 2 f_equal. apply IH, Hv.
  - cbn [utf8.Valid] in Hv. rewrite Hc, H1, H2 in Hv. cbn [andb] in Hv.
    cbn [bytes_.ToValidUTF8_from]. accept_step. do 3 f_equal. apply IH, Hv.
  - cbn [utf8.Valid] in Hv. rewrite Hc, H1, H2, H3 in Hv. cbn [andb] in Hv.
    cbn [bytes_.ToValidUTF8_from]. accept_step. do 4 f_equal. apply IH, Hv.
Qed.

(** ** Facts about [replaceNullChars] *)

Lemma nullFreeb_app (a b : bytes) :
  nullFreeb (a ++ b) = nullFreeb a && nullFreeb b.
Proof. apply forallb_app. Qed.

Lemma replaceNullChars_nullFree (b : bytes) :
  nullFreeb (replaceNullChars b) = true.
Proof.
  unfold replaceNullChars.
  induction b as [|c b IH]; [reflexivity|].
  cbn [bytes_.ReplaceAll1]. destruct (Byte.eqb c NUL) eqn:E.
  - rewrite nullFreeb_app, IH. reflexivity.
  - cbn [nullFreeb forallb]. rewrite E. exact IH.
Qed.

Lemma replaceNullChars_id (b : bytes) :
  nullFreeb b = true -> replaceNullChars b = b.
Proof.
  unfold replaceNullChars.
  induction b as [|c b IH]; [reflexivity|].
  cbn [nullFreeb forallb bytes_.ReplaceAll1]. intros H.
  apply andb_true_iff in H. destruct H as [Hc Hb].
  apply negb_true_iff in Hc. rewrite Hc. f_equal. apply IH, Hb.
Qed.

(** Byte by byte, [replaceNullChars] keeps every byte but [NULL], which
    becomes the replacement marker. *)
Lemma replaceNullChars_flat_map (b : bytes) :
  replaceNullChars b
  = flat_map (fun c => if Byte.eqb c NUL then replacementChar else [c]) b.
Proof.
  unfold replaceNullChars.
  induction b as [|c b IH]; [reflexivity|].
  cbn [bytes_.ReplaceAll1 flat_map]. rewrite IH.
  destruct (Byte.eqb c NUL); reflexivity.
Qed.

Lemma replaceNullChars_high (c : byte) (r : bytes) :
  (0x80 <= to_N c)%N ->
  replaceNullChars (c :: r) = c :: replaceNullChars r.
Proof.
  intros H. unfold replaceNullChars. cbn [bytes_.ReplaceAll1].
  rewrite (high_not_NUL c H). reflexivity.
Qed.

Lemma Valid_replaceNullChars (b : bytes) :
  utf8.Valid b = true -> utf8.Valid (replaceNullChars b) = true.
Proof.
  induction b as [| c r Has IH | c r Hna Hsz IH | c b1 r lo hi Hc H1 IH
                 | c b1 b2 r lo hi Hc H1 H2 IH
                 | c b1 b2 b3 r lo hi Hc H1 H2 H3 IH] using runes_ind;
    intros Hv.
  - reflexivity.
  - cbn [utf8.Valid] in Hv. rewrite Has in Hv.
    unfold replaceNullChars. cbn [bytes_.ReplaceAll1].
    destruct (Byte.eqb c NUL).
    + apply Valid_app; [reflexivity | apply IH, Hv].
    + cbn [utf8.Valid]. rewrite Has. apply IH, Hv.
  - rewrite (Valid_rejected _ _ Hna Hsz) in Hv. discriminate.
  - cbn [utf8.Valid] in Hv. rewrite Hc, H1 in Hv. cbn [andb] in Hv.
    pose proof (first_lead_bounds c) as Bc. rewrite Hc in Bc.
    pose proof (accepted_bounds _ _ _ H1) as B1.
    rewrite !replaceNullChars_high by lia.
    cbn [utf8.Valid]. accept_step. apply IH, Hv.
  - cbn [utf8.Valid] in Hv. rewrite Hc, H1, H2 in Hv. cbn [andb] in Hv.
    pose proof (first_lead_bounds c) as Bc. rewrite Hc in Bc.
    pose proof (accepted_bounds _ _ _ H1) as B1.
    pose proof (accepted_bounds _ _ _ H2) as B2. unfold utf8.locb in B2.
    rewrite !replaceNullChars_high by lia.
    cbn [utf8.Valid]. accept_step. apply IH, Hv.
  - cbn [utf8.Valid] in Hv. rewrite Hc, H1, H2, H3 in Hv. cbn [andb] in Hv.
    pose proof (first_lead_bounds c) as Bc. rewrite Hc in Bc.
    pose proof (accepted_bounds _ _ _ H1) as B1.
    pose proof (accepted_bounds _ _ _ H2) as B2. unfold utf8.locb in B2.
    pose proof (accepted_bounds _ _ _ H3) as B3. unfold utf8.locb in B3.
    rewrite !replaceNullChars_high by lia.
    cbn [utf8.Valid]. accept_step. apply IH, Hv.
Qed.

(** The header section of a sanitized trace is valid and free of [NULL],
    whatever the captured bytes. *)
Lemma sanitized_header (header : bytes) :
  utf8.Valid (replaceNullChars (bytes_.ToValidUTF8 header replacementChar))
  = true
  /\ nullFreeb (replaceNullChars (bytes_.ToValidUTF8 header replacementChar))
     = true.
Proof.
  split.
  - apply Valid_replaceNullChars.
    apply Valid_ToValidUTF8_from. reflexivity.
  - apply replaceNullChars_nullFree.
Qed.

(** [santizedTrace] returns valid UTF-8 without [NULL] when the body is
    valid UTF-8 or the placeholder is valid UTF-8 without [NULL]. *)
Lemma santizedTrace_safe (header body placeholder : bytes) :
  utf8.Valid body = true
  \/ (utf8.Valid placeholder = true /\ nullFreeb placeholder = true) ->
  utf8.Valid (santizedTrace header body placeholder) = true
  /\ nullFreeb (santizedTrace header body placeholder) = true.
Proof.
  intros H. unfold santizedTrace.
  destruct (sanitized_header header) as [Hv Hn].
  rewrite nullFreeb_app, Hn. cbn [andb].
  destruct (utf8.Valid body) eqn:Eb.
  - split; [apply Valid_app; [exact Hv | apply Valid_replaceNullChars, Eb]
           | apply replaceNullChars_nullFree].
  - destruct H as [H | [Hp Hq]]; [discriminate|].
    split; [apply Valid_app; assumption | exact Hq].
Qed.

(** ** Facts about the split at the separator *)

Lemma HasPrefix_skipn (s sep : bytes) :
  bytes_.HasPrefix s sep = true -> s = sep ++ skipn (List.length sep) s.
Proof.
  revert s. induction sep as [|p sep IH]; intros s H; [reflexivity|].
  destruct s as [|c s]; [discriminate|].
  cbn [bytes_.HasPrefix] in H. apply andb_true_iff in H. destruct H as [E H].
  apply byte_dec_bl in E. subst c.
  cbn [List.length skipn app]. f_equal. apply IH, H.
Qed.

Lemma HasPrefix_app (sep b : bytes) : bytes_.HasPrefix (sep ++ b) sep = true.
Proof.
  induction sep as [|p sep IH]; [reflexivity|].
  cbn [app bytes_.HasPrefix]. rewrite IH.
  rewrite (byte_dec_lb (eq_refl p)). reflexivity.
Qed.

Lemma cutAtFirst_join (sep s h b : bytes) :
  bytes_.cutAtFirst s sep = Some (h, b) -> s = h ++ sep ++ b.
Proof.
  revert h b. induction s as [|c s IH]; intros h b H.
  - cbn [bytes_.cutAtFirst] in H.
    destruct (bytes_.HasPrefix [] sep) eqn:E; [|discriminate].
    injection H as <- <-. apply HasPrefix_skipn, E.
  - cbn [bytes_.cutAtFirst] in H.
    destruct (bytes_.HasPrefix (c :: s) sep) eqn:E.
    + injection H as <- <-. apply HasPrefix_skipn, E.
    + destruct (bytes_.cutAtFirst s sep) as [[h0 b0]|] eqn:E0; [|discriminate].
      injection H as <- <-. cbn [app]. f_equal. apply IH. reflexivity.
Qed.

(** The cut is at the leftmost separator. *)
Lemma cutAtFirst_leftmost (sep s h b : bytes) :
  bytes_.cutAtFirst s sep = Some (h, b) ->
  forall h' b', s = h' ++ sep ++ b' -> (List.length h <= List.length h')%nat.
Proof.
  revert h b. induction s as [|c s IH]; intros h b H h' b' Hs.
  - cbn [bytes_.cutAtFirst] in H.
    destruct (bytes_.HasPrefix [] sep); [|discriminate].
    injection H as <- <-. cbn. lia.
  - cbn [bytes_.cutAtFirst] in H.
    destruct (bytes_.HasPrefix (c :: s) sep) eqn:E.
    + injection H as <- <-. cbn. lia.
    + destruct (bytes_.cutAtFirst s sep) as [[h0 b0]|] eqn:E0; [|discriminate].
      injection H as <- <-.
      destruct h' as [|c' h'].
      * cbn [app] in Hs. rewrite Hs, HasPrefix_app in E. discriminate.
      * cbn [app] in Hs. injection Hs as _ Hs.
        cbn [List.length]. apply le_n_S. eapply IH; eauto.
Qed.

Lemma cutAtFirst_Contains (sep s : bytes) :
  bytes_.Contains s sep = true <-> bytes_.cutAtFirst s sep <> None.
Proof.
  induction s as [|c s IH]; cbn [bytes_.Contains bytes_.cutAtFirst].
  - destruct (bytes_.HasPrefix [] sep); cbn; split; congruence.
  - destruct (bytes_.HasPrefix (c :: s) sep); cbn [orb].
    + split; congruence.
    + rewrite IH. destruct (bytes_.cutAtFirst s sep) as [[h0 b0]|];
        split; congruence.
Qed.

(** [Contains s sep] says that [sep] occurs in [s]. *)
Lemma Contains_occurs (sep s : bytes) :
  bytes_.Contains s sep = true <-> exists h b, s = h ++ sep ++ b.
Proof.
  split.
  - intros H. apply cutAtFirst_Contains in H.
    destruct (bytes_.cutAtFirst s sep) as [[h b]|] eqn:E; [|congruence].
    exists h, b. apply (cutAtFirst_join _ _ _ _ E).
  - intros (h & b & ->). induction h as [|c h IH].
    + cbn [app]. destruct (sep ++ b) as [|x y] eqn:E.
      * cbn [bytes_.Contains]. rewrite <- E, HasPrefix_app. reflexivity.
      * cbn [bytes_.Contains]. rewrite <- E, HasPrefix_app. reflexivity.
    + cbn [app bytes_.Contains]. rewrite IH. apply orb_true_r.
Qed.

Lemma accepted_ascii (lo hi : N) (c : byte) :
  utf8.first c = utf8.as_ -> (0x80 <= lo)%N -> utf8.accepted lo hi c = false.
Proof.
  intros Hc Hlo. apply first_as_iff in Hc. unfold utf8.accepted.
  apply andb_false_iff. left. apply N.leb_gt. lia.
Qed.

(** A sequence the decoder rejects stays rejected when an ASCII byte
    follows it. *)
Lemma Valid_rejected_app (c0 : byte) (r0 : bytes) (c : byte) (r : bytes) :
  utf8.first c0 <> utf8.as_ -> utf8.DecodeRune_size (c0 :: r0) = 1%nat ->
  utf8.first c = utf8.as_ ->
  utf8.Valid ((c0 :: r0) ++ c :: r) = false.
Proof.
  intros Hna Hsz Hc.
  pose proof (accepted_ascii utf8.locb utf8.hicb c Hc (N.le_refl _)) as Hcb.
  pose proof (first_lead_bounds c0) as B0.
  cbn [utf8.DecodeRune_size] in Hsz. cbn [app utf8.Valid].
  destruct (utf8.first c0) eqn:E0; try congruence; try reflexivity;
    destruct B0 as [_ Blo];
    pose proof (accepted_ascii lo hi c Hc Blo) as Hlo;
    destruct r0 as [|b1 [|b2 [|b3 r0]]]; cbn [app];
    rewrite ?Hlo, ?Hcb; cbn [andb]; try reflexivity;
    repeat match type of Hsz with
           | context [utf8.accepted ?l ?h ?b] =>
               destruct (utf8.accepted l h b); cbn [andb] in Hsz |- *
           end;
    rewrite ?Hcb, ?andb_false_r; cbn [andb];
    try discriminate; try reflexivity;
    destruct r as [|? [|? r]]; rewrite ?Hcb, ?andb_false_r; reflexivity.
Qed.

(** Valid UTF-8 cut in front of an ASCII byte is valid on both sides. *)
Lemma Valid_cut_ascii (a : bytes) (c : byte) (r : bytes) :
  utf8.first c = utf8.as_ ->
  utf8.Valid (a ++ c :: r) = true ->
  utf8.Valid a = true /\ utf8.Valid (c :: r) = true.
Proof.
  intros Hc.
  induction a as [| c0 r0 Has IH | c0 r0 Hna Hsz IH | c0 b1 r0 lo hi Hc0 H1 IH
                 | c0 b1 b2 r0 lo hi Hc0 H1 H2 IH
                 | c0 b1 b2 b3 r0 lo hi Hc0 H1 H2 H3 IH] using runes_ind;
    intros Hv.
  - split; [reflexivity | exact Hv].
  - cbn [app utf8.Valid] in Hv |- *. rewrite Has in Hv |- *. apply IH, Hv.
  - rewrite (Valid_rejected_app _ _ _ _ Hna Hsz Hc) in Hv. discriminate.
  - cbn [app utf8.Valid] in Hv |- *. rewrite Hc0, H1 in Hv |- *.
    apply IH, Hv.
  - cbn [app utf8.Valid] in Hv |- *. rewrite Hc0, H1, H2 in Hv |- *.
    apply IH, Hv.
  - cbn [app utf8.Valid] in Hv |- *. rewrite Hc0, H1, H2, H3 in Hv |- *.
    apply IH, Hv.
Qed.

(** Both sections of a valid dump cut at the separator are valid. *)
Lemma Valid_sections (h b : bytes) :
  utf8.Valid (h ++ CRLFCRLF ++ b) = true ->
  utf8.Valid (h ++ CRLFCRLF) = true /\ utf8.Valid b = true.
Proof.
  intros Hv. unfold CRLFCRLF in Hv. cbn [app] in Hv.
  apply Valid_cut_ascii in Hv; [|reflexivity]. destruct Hv as [Hh Hb].
  split; [apply Valid_app; [exact Hh | reflexivity] | exact Hb].
Qed.

(** ** The sanitizer *)

(** C5, as amended. For every captured header and body byte sequence and
    every placeholder that is itself valid UTF-8 and holds no null byte,
    the strings [SanitizedRequest] and [SanitizedResponse] return are valid
    UTF-8 and hold no null byte. *)
Theorem sanitized_is_clean_text (t : Trace) (placeholder : bytes) :
  utf8.Valid placeholder = true ->
  nullFreeb placeholder = true ->
  (utf8.Valid (SanitizedRequest t placeholder) = true
   /\ nullFreeb (SanitizedRequest t placeholder) = true)
  /\ (utf8.Valid (SanitizedResponse t placeholder) = true
      /\ nullFreeb (SanitizedResponse t placeholder) = true).
Proof.
  intros Hv Hn. split.
  - unfold SanitizedRequest. destruct (requestSections t) as [headers body].
    apply santizedTrace_safe. right. split; assumption.
  - unfold SanitizedResponse.
    apply santizedTrace_safe. right. split; assumption.
Qed.

Lemma sanitized_is_clean_text_witness :
  (utf8.Valid (SanitizedRequest (traceOf [xff; x00] [x00; xc0] pngBody)
                 (lit "[binary]")) = true
   /\ nullFreeb (SanitizedRequest (traceOf [xff; x00] [x00; xc0] pngBody)
                   (lit "[binary]")) = true)
  /\ (utf8.Valid (SanitizedResponse (traceOf [xff; x00] [x00; xc0] pngBody)
                    (lit "[binary]")) = true
      /\ nullFreeb (SanitizedResponse (traceOf [xff; x00] [x00; xc0] pngBody)
                      (lit "[binary]")) = true).
Proof.
  apply (sanitized_is_clean_text (traceOf [xff; x00] [x00; xc0] pngBody)
           (lit "[binary]")); reflexivity.
Defined.

(** C5, as stated, fails: the placeholder is written as it is, so with a
    body that is not valid UTF-8 a placeholder holding a null byte, or
    bytes that are not UTF-8, reaches the returned string. *)
Lemma placeholder_is_not_sanitized :
  SanitizedResponse (traceOf postDump okHeaders pngBody) [NUL]
  = okHeaders ++ [NUL]
  /\ nullFreeb (SanitizedResponse (traceOf postDump okHeaders pngBody) [NUL])
     = false
  /\ utf8.Valid (SanitizedResponse (traceOf postDump okHeaders pngBody) [xff])
     = false
  /\ nullFreeb (SanitizedRequest (traceOf (okHeaders ++ pngBody) [] []) [NUL])
     = false.
Proof. repeat split; reflexivity. Qed.

(** C8. [SanitizedResponse] returns the sanitized response headers
    followed by the placeholder, in place of the body, when the body is not
    valid UTF-8, and followed by the body, byte for byte but for each null
    byte which becomes the replacement marker, when the body is valid
    UTF-8; headers that are valid UTF-8 without null bytes are returned as
    they are. *)
Theorem SanitizedResponse_body (t : Trace) (placeholder : bytes) :
  (utf8.Valid (ResponseBody t) = false ->
   SanitizedResponse t placeholder
   = replaceNullChars (bytes_.ToValidUTF8 (ResponseTrace t) replacementChar)
     ++ placeholder)
  /\ (utf8.Valid (ResponseBody t) = true ->
      SanitizedResponse t placeholder
      = replaceNullChars (bytes_.ToValidUTF8 (ResponseTrace t) replacementChar)
        ++ flat_map (fun c => if Byte.eqb c NUL then replacementChar else [c])
             (ResponseBody t))
  /\ (utf8.Valid (ResponseTrace t) = true ->
      nullFreeb (ResponseTrace t) = true ->
      replaceNullChars (bytes_.ToValidUTF8 (ResponseTrace t) replacementChar)
      = ResponseTrace t).
Proof.
  unfold SanitizedResponse, santizedTrace. repeat split.
  - intros ->. reflexivity.
  - intros ->. rewrite <- (replaceNullChars_flat_map (ResponseBody t)).
    reflexivity.
  - intros Hv Hn. unfold bytes_.ToValidUTF8.
    rewrite (ToValidUTF8_from_valid _ _ Hv). apply replaceNullChars_id, Hn.
Qed.

Lemma SanitizedResponse_body_witness :
  SanitizedResponse (traceOf postDump okHeaders pngBody) (lit "[binary]")
  = okHeaders ++ lit "[binary]"
  /\ SanitizedResponse (traceOf postDump okHeaders [x61; x00; x62])
       (lit "[binary]")
     = okHeaders ++ [x61] ++ replacementChar ++ [x62].
Proof.
  split.
  - pose proof (SanitizedResponse_body (traceOf postDump okHeaders pngBody)
                  (lit "[binary]")) as (H1 & _ & H3).
    rewrite H1 by reflexivity. rewrite H3 by reflexivity. reflexivity.
  - pose proof (SanitizedResponse_body
                  (traceOf postDump okHeaders [x61; x00; x62])
                  (lit "[binary]")) as (_ & H2 & H3).
    rewrite H2 by reflexivity. rewrite H3 by reflexivity. reflexivity.
Defined.

Lemma requestSections_found (t : Trace) (h b : bytes) :
  bytes_.cutAtFirst (RequestTrace t) CRLFCRLF = Some (h, b) ->
  requestSections t = (h ++ CRLFCRLF, b).
Proof.
  intros H. unfold requestSections, bytes_.SplitN2. rewrite H. reflexivity.
Qed.

Lemma requestSections_missing (t : Trace) :
  bytes_.cutAtFirst (RequestTrace t) CRLFCRLF = None ->
  requestSections t = (RequestTrace t ++ CRLFCRLF, []).
Proof.
  intros H. unfold requestSections, bytes_.SplitN2. rewrite H. reflexivity.
Qed.

Lemma santizedTrace_clean (header body placeholder : bytes) :
  utf8.Valid header = true -> nullFreeb header = true ->
  utf8.Valid body = true -> nullFreeb body = true ->
  santizedTrace header body placeholder = header ++ body.
Proof.
  intros Hh Nh Hb Nb. unfold santizedTrace, bytes_.ToValidUTF8.
  rewrite (ToValidUTF8_from_valid _ _ Hh), Hb.
  rewrite !replaceNullChars_id by assumption. reflexivity.
Qed.

(** C6. On a trace whose captured bytes are valid UTF-8 and hold no null
    byte, sanitizing returns the captured bytes: the request dump itself,
    cut at its first blank line and joined again, and the response header
    dump followed by the response body. A request dump without a blank
    line is taken whole as the header section, with the separator added
    to it and an empty body. *)
Theorem sanitize_clean_trace (t : Trace) (placeholder : bytes) :
  utf8.Valid (RequestTrace t) = true ->
  nullFreeb (RequestTrace t) = true ->
  utf8.Valid (ResponseTrace t) = true ->
  nullFreeb (ResponseTrace t) = true ->
  utf8.Valid (ResponseBody t) = true ->
  nullFreeb (ResponseBody t) = true ->
  (bytes_.Contains (RequestTrace t) CRLFCRLF = true ->
   SanitizedRequest t placeholder = RequestTrace t)
  /\ (bytes_.Contains (RequestTrace t) CRLFCRLF = false ->
      requestSections t = (RequestTrace t ++ CRLFCRLF, [])
      /\ SanitizedRequest t placeholder = RequestTrace t ++ CRLFCRLF)
  /\ SanitizedResponse t placeholder = ResponseTrace t ++ ResponseBody t.
Proof.
  intros Hq Nq Hr Nr Hb Nb. split; [|split; [intros Hc; split|]].
  - intros Hc. apply cutAtFirst_Contains in Hc.
    destruct (bytes_.cutAtFirst (RequestTrace t) CRLFCRLF) as [[h b]|] eqn:E;
      [|congruence].
    unfold SanitizedRequest. rewrite (requestSections_found _ _ _ E).
    pose proof (cutAtFirst_join _ _ _ _ E) as J.
    rewrite J in Hq, Nq. apply Valid_sections in Hq. destruct Hq as [Hh Hb'].
    rewrite app_assoc, nullFreeb_app in Nq.
    apply andb_true_iff in Nq. destruct Nq as [Nh Nb'].
    rewrite santizedTrace_clean by assumption.
    rewrite J, <- app_assoc. reflexivity.
  - apply requestSections_missing.
    destruct (bytes_.cutAtFirst (RequestTrace t) CRLFCRLF) eqn:E;
      [|reflexivity].
    assert (C : bytes_.Contains (RequestTrace t) CRLFCRLF = true)
      by (apply cutAtFirst_Contains; congruence).
    congruence.
  - assert (E : bytes_.cutAtFirst (RequestTrace t) CRLFCRLF = None).
    { destruct (bytes_.cutAtFirst (RequestTrace t) CRLFCRLF) eqn:E;
        [|reflexivity].
      assert (C : bytes_.Contains (RequestTrace t) CRLFCRLF = true)
        by (apply cutAtFirst_Contains; congruence).
      congruence. }
    unfold SanitizedRequest. rewrite (requestSections_missing _ E).
    rewrite santizedTrace_clean; try assumption; try reflexivity.
    + apply app_nil_r.
    + apply Valid_app; [assumption | reflexivity].
    + rewrite nullFreeb_app, Nq. reflexivity.
  - unfold SanitizedResponse. apply santizedTrace_clean; assumption.
Qed.

Lemma sanitize_clean_trace_witness :
  SanitizedRequest (traceOf postDump okHeaders (lit "hello")) (lit "...")
  = postDump
  /\ SanitizedRequest (traceOf cutDump okHeaders (lit "hello")) (lit "...")
     = cutDump ++ CRLFCRLF
  /\ SanitizedResponse (traceOf postDump okHeaders (lit "hello")) (lit "...")
     = okHeaders ++ lit "hello".
Proof.
  split; [|split].
  - apply (sanitize_clean_trace (traceOf postDump okHeaders (lit "hello"))
             (lit "...")); reflexivity.
  - apply (sanitize_clean_trace (traceOf cutDump okHeaders (lit "hello"))
             (lit "...")); reflexivity.
  - apply (sanitize_clean_trace (traceOf postDump okHeaders (lit "hello"))
             (lit "...")); reflexivity.
Defined.

(** ** Facts about integers and messages *)

Lemma wrap64_id (z : Z) : MinInt64 <= z <= MaxInt64 -> wrap64 z = z.
Proof.
  unfold MinInt64, MaxInt64, wrap64. intros H.
  rewrite Z.mod_small; lia.
Qed.

Lemma wrap64_MaxInt64_succ : int64_add MaxInt64 1 = MinInt64.
Proof. reflexivity. Qed.

Lemma hasPrefix_app (sub b : string) : hasPrefix (sub ++ b) sub = true.
Proof.
  induction sub as [|p sub IH]; [reflexivity|].
  cbn [String.append hasPrefix]. rewrite IH, Ascii.eqb_refl. reflexivity.
Qed.

Lemma contains_app (a sub b : string) :
  contains (a ++ sub ++ b) sub = true.
Proof.
  induction a as [|c a IH].
  - cbn [String.append]. destruct (sub ++ b)%string eqn:E;
      cbn [contains]; rewrite <- E, hasPrefix_app; reflexivity.
  - cbn [String.append contains]. rewrite IH. apply orb_true_r.
Qed.

(** The error of an oversized body names the limit. *)
Lemma bodyTooBig_names_limit (maxBodyBytes : Z) :
  names (bodyTooBig maxBodyBytes) (itoa maxBodyBytes) = true.
Proof. apply contains_app. Qed.

(** ** The bounded body reader *)

(** The limited reader, by the length of the stream against the limit. *)
Lemma LimitedReadAll_spent (body : ReadCloser) (n : Z) :
  n <= 0 -> LimitedReadAll body n = ([], None, n).
Proof.
  intros H. unfold LimitedReadAll.
  destruct (Z.leb_spec n 0); [reflexivity | lia].
Qed.

Lemma LimitedReadAll_short (body : ReadCloser) (n : Z) :
  0 < n ->
  Z.of_nat (List.length (content body)) < n ->
  LimitedReadAll body n
  = (content body, failure body, n - Z.of_nat (List.length (content body))).
Proof.
  intros Hpos Hlen. unfold LimitedReadAll.
  destruct (Z.leb_spec n 0); [lia|].
  destruct (Z.ltb_spec n (Z.of_nat (List.length (content body)))); [lia|].
  destruct (Z.eqb_spec n (Z.of_nat (List.length (content body))));
    [lia | reflexivity].
Qed.

Lemma LimitedReadAll_just (body : ReadCloser) (n : Z) :
  0 < n ->
  Z.of_nat (List.length (content body)) = n ->
  LimitedReadAll body n
  = (content body, if sameCall body then failure body else None, 0).
Proof.
  intros Hpos Hlen. unfold LimitedReadAll.
  destruct (Z.leb_spec n 0); [lia|].
  destruct (Z.ltb_spec n (Z.of_nat (List.length (content body)))); [lia|].
  destruct (Z.eqb_spec n (Z.of_nat (List.length (content body))));
    [reflexivity | lia].
Qed.

Lemma LimitedReadAll_long (body : ReadCloser) (n : Z) :
  0 < n ->
  n < Z.of_nat (List.length (content body)) ->
  LimitedReadAll body n = (firstn (Z.to_nat n) (content body), None, 0).
Proof.
  intros Hpos Hlen. unfold LimitedReadAll.
  destruct (Z.leb_spec n 0); [lia|].
  destruct (Z.ltb_spec n (Z.of_nat (List.length (content body))));
    [reflexivity | lia].
Qed.

(** The limit of the reader, when it does not wrap. *)
Lemma limit_no_wrap (maxBodyBytes : Z) :
  0 < maxBodyBytes < MaxInt64 ->
  int64_add maxBodyBytes 1 = maxBodyBytes + 1.
Proof.
  intros H. unfold int64_add.
  apply wrap64_id. unfold MinInt64, MaxInt64 in *. lia.
Qed.

Lemma readBody_exact (response : Response) (maxBodyBytes : Z) (w : World) :
  0 < maxBodyBytes ->
  Z.of_nat (List.length (content (Body response))) = maxBodyBytes ->
  maxBodyBytes < MaxInt64 ->
  failure (Body response) = None ->
  fst (readBody response maxBodyBytes w) = (content (Body response), None).
Proof.
  intros Hpos Hlen Hfit Heof. unfold readBody.
  rewrite limit_no_wrap by lia.
  destruct (Z.ltb_spec 0 maxBodyBytes); [|lia].
  rewrite LimitedReadAll_short by lia.
  rewrite Heof.
  destruct (Z.leb_spec
              (maxBodyBytes + 1
               - Z.of_nat (List.length (content (Body response)))) 0);
    [lia | reflexivity].
Qed.

(** A stream of [maxBodyBytes + 1] bytes or more is refused as oversized,
    unless it has just that many bytes and breaks off with a read error
    that comes with the last of them. *)
Lemma readBody_over (response : Response) (maxBodyBytes : Z) (w : World) :
  0 < maxBodyBytes <= MaxInt64 ->
  maxBodyBytes + 1 <= Z.of_nat (List.length (content (Body response))) ->
  failure (Body response) = None
  \/ sameCall (Body response) = false
  \/ maxBodyBytes + 1 < Z.of_nat (List.length (content (Body response))) ->
  fst (readBody response maxBodyBytes w)
  = ([], Some (bodyTooBig maxBodyBytes)).
Proof.
  intros [Hpos Hint] Hlen Hend. unfold readBody.
  destruct (Z.ltb_spec 0 maxBodyBytes); [|lia].
  destruct (Z.eq_dec maxBodyBytes MaxInt64) as [->|Hne].
  - rewrite wrap64_MaxInt64_succ. reflexivity.
  - rewrite limit_no_wrap by lia.
    destruct (Z.eq_dec (Z.of_nat (List.length (content (Body response))))
                (maxBodyBytes + 1)) as [Heq|Hneq].
    + rewrite LimitedReadAll_just by lia.
      destruct Hend as [Heof | [Hlate | Hmore]]; [| |lia].
      * rewrite Heof. destruct (sameCall (Body response)); reflexivity.
      * rewrite Hlate. reflexivity.
    + rewrite LimitedReadAll_long by lia. reflexivity.
Qed.

(** A stream of just [maxBodyBytes + 1] bytes gives its read error if
    that comes with the last of them, and is refused as oversized
    otherwise. *)
Lemma readBody_just_over (response : Response) (maxBodyBytes : Z)
    (w : World) :
  0 < maxBodyBytes < MaxInt64 ->
  Z.of_nat (List.length (content (Body response))) = maxBodyBytes + 1 ->
  fst (readBody response maxBodyBytes w)
  = ([], Some match failure (Body response) with
              | Some e =>
                  if sameCall (Body response) then e
                  else bodyTooBig maxBodyBytes
              | None => bodyTooBig maxBodyBytes
              end).
Proof.
  intros Hrange Hlen. unfold readBody.
  destruct (Z.ltb_spec 0 maxBodyBytes); [|lia].
  rewrite limit_no_wrap by lia.
  rewrite LimitedReadAll_just by lia.
  destruct (sameCall (Body response)), (failure (Body response));
    reflexivity.
Qed.

Lemma readBody_unbounded (response : Response) (maxBodyBytes : Z)
    (w : World) :
  maxBodyBytes <= 0 ->
  fst (readBody response maxBodyBytes w)
  = (content (Body response), failure (Body response)).
Proof.
  intros Hle. unfold readBody, ReadAll.
  destruct (Z.ltb_spec 0 maxBodyBytes); [lia | reflexivity].
Qed.

(** C3. With [maxBodyBytes > 0], a body of exactly [maxBodyBytes] bytes is
    returned whole and without error, and a body of [maxBodyBytes + 1]
    bytes or more gives no bytes and the error that names the limit; with
    [maxBodyBytes <= 0] a body of any length is returned whole. A body of
    [n] bytes is a stream that delivers them and then ends with [io.EOF];
    a body that [io.ReadAll] returns whole is shorter than the largest
    [int], since the slice keeps one spare byte of capacity;
    [maxBodyBytes] is an [int]. The second part holds as well of a stream
    that breaks off with a read error, if the error lies beyond
    [maxBodyBytes + 1] bytes or comes in a [Read] of its own. *)
Theorem readBody_bound (response : Response) (maxBodyBytes : Z) (w : World) :
  (0 < maxBodyBytes ->
   Z.of_nat (List.length (content (Body response))) = maxBodyBytes ->
   Z.of_nat (List.length (content (Body response))) < MaxInt64 ->
   failure (Body response) = None ->
   fst (readBody response maxBodyBytes w) = (content (Body response), None))
  /\ (0 < maxBodyBytes <= MaxInt64 ->
      maxBodyBytes + 1 <= Z.of_nat (List.length (content (Body response))) ->
      failure (Body response) = None
      \/ sameCall (Body response) = false
      \/ maxBodyBytes + 1
         < Z.of_nat (List.length (content (Body response))) ->
      fst (readBody response maxBodyBytes w)
      = ([], Some (bodyTooBig maxBodyBytes))
      /\ names (bodyTooBig maxBodyBytes) (itoa maxBodyBytes) = true)
  /\ (maxBodyBytes <= 0 ->
      failure (Body response) = None ->
      fst (readBody response maxBodyBytes w)
      = (content (Body response), None)).
Proof.
  split; [|split].
  - intros Hpos Hlen Hfit Heof. apply readBody_exact; try assumption. lia.
  - intros Hrange Hlen Hend. split.
    + apply readBody_over; assumption.
    + apply bodyTooBig_names_limit.
  - intros Hle Heof. rewrite readBody_unbounded by assumption.
    rewrite Heof. reflexivity.
Qed.

(** ** The executor *)

Lemma readBody_world (response : Response) (maxBodyBytes : Z) (w : World) :
  invocations (snd (readBody response maxBodyBytes w)) = invocations w
  /\ clockReads (snd (readBody response maxBodyBytes w)) = clockReads w
  /\ exists n,
       events (snd (readBody response maxBodyBytes w))
       = events w ++ [ReadFrom (stream (Body response)) n;
                      Closed (stream (Body response))].
Proof.
  unfold readBody.
  destruct (0 <? maxBodyBytes).
  - destruct (LimitedReadAll (Body response) (int64_add maxBodyBytes 1))
      as [[bodyBytes err] N].
    destruct err as [e|]; [|destruct (N <=? 0)];
      cbn [snd emit invocations clockReads events];
      (split; [reflexivity | split; [reflexivity|]]);
      exists (List.length bodyBytes); rewrite <- app_assoc; reflexivity.
  - destruct (ReadAll (Body response)) as [bodyBytes err].
    cbn [snd emit invocations clockReads events].
    split; [reflexivity | split; [reflexivity|]].
    exists (List.length bodyBytes). rewrite <- app_assoc. reflexivity.
Qed.

Section ExecutorFacts.

Variable Client : Type.
Variable currentRequestor :
  nat -> Client -> Request -> option Response * option error.
Variable DumpRequestOut : Request -> bytes + error.
Variable DumpResponse : Response -> bytes + error.
Variable dates_Now : nat -> Time.

(** The loop only dispatches and sleeps, however it ends. *)
Lemma doLoop_events (client : Client) (request : Request)
    (retries : option RetryConfig) :
  forall fuel retry w,
  exists evs,
    events (snd (doLoop currentRequestor fuel client request retries
                   retry w))
    = events w ++ evs
    /\ forallb loopEvent evs = true.
Proof.
  induction fuel as [|fuel IH]; intros retry w.
  - exists []. cbn [doLoop snd]. rewrite app_nil_r. split; reflexivity.
  - cbn [doLoop]. unfold dispatch.
    destruct (currentRequestor (invocations w) client request)
      as [response err].
    destruct (retryAfter retries request response retry) as [backoff|].
    + match goal with
      | |- context [doLoop _ fuel _ _ _ ?r ?w1] =>
          destruct (IH r w1) as (evs & E & F)
      end.
      exists ([Dispatched (invocations w); Slept backoff] ++ evs).
      rewrite E. cbn [emit events]. rewrite <- !app_assoc.
      split; [reflexivity|]. cbn [app forallb loopEvent andb]. exact F.
    + exists [Dispatched (invocations w)]. cbn [snd events].
      split; reflexivity.
Qed.

(** With fuel for every retry that is left, the loop returns, and it
    has dispatched once more than it has retried. *)
Lemma doLoop_returns (client : Client) (request : Request)
    (retries : option RetryConfig) :
  forall fuel retry w,
  match retries with
  | Some rc =>
      0 <= retry /\ MaxRetries rc <= MaxInt64
      /\ (Z.to_nat (MaxRetries rc - retry) < fuel)%nat
  | None => (0 < fuel)%nat
  end ->
  exists response retry' err w',
    doLoop currentRequestor fuel client request retries retry w
    = (Returned (response, retry', err), w')
    /\ retry <= retry'
    /\ match retries with
       | Some rc => retry' <= Z.max retry (MaxRetries rc)
       | None => retry' = retry
       end
    /\ dispatches w w' = retry' - retry + 1
    /\ clockReads w' = clockReads w.
Proof.
  induction fuel as [|fuel IH]; intros retry w Hfuel.
  - destruct retries; lia.
  - cbn [doLoop]. unfold dispatch.
    destruct (currentRequestor (invocations w) client request)
      as [response err].
    destruct (retryAfter retries request response retry) as [backoff|] eqn:R.
    + unfold retryAfter in R.
      destruct retries as [rc|]; [|discriminate].
      destruct (Z.ltb_spec retry (MaxRetries rc)) as [Hlt|]; [|discriminate].
      destruct Hfuel as (H0 & Hmax & Hf).
      unfold int64_add.
      rewrite wrap64_id by (unfold MinInt64, MaxInt64 in *; lia).
      match goal with
      | |- context [doLoop _ fuel _ _ _ ?r ?w1] =>
          destruct (IH r w1) as (resp' & retry' & err' & w' & E & Hle & Hb
                                 & Hd & Hc)
      end.
      { repeat split; try lia. }
      exists resp', retry', err', w'.
      unfold dispatches in *. cbn [emit invocations clockReads] in Hd, Hc.
      repeat split; try assumption; lia.
    + exists response, retry, err.
      eexists. split; [reflexivity|].
      unfold dispatches. cbn [invocations clockReads].
      repeat split; try lia. destruct retries; lia.
Qed.


(** Past the access check, [do] is its loop. *)
Lemma do_passes (client : Client) (request : Request)
    (retries : option RetryConfig) (access : option AccessConfig)
    (w : World) :
  passes access request = true ->
  do currentRequestor client request retries access w
  = doLoop currentRequestor (loopFuel retries) client request retries 0 w.
Proof.
  unfold passes, do, refusal. destruct access as [ac|]; [|reflexivity].
  destruct (Allow ac request) as [[|] [e|]]; try discriminate. reflexivity.
Qed.

(** [do] returns: the fuel it gives its loop is never used up. The
    result of [MaxRetries()] is an [int]. *)
Lemma do_returns (client : Client) (request : Request)
    (retries : option RetryConfig) (access : option AccessConfig)
    (w : World) :
  match retries with
  | Some rc => MaxRetries rc <= MaxInt64
  | None => True
  end ->
  exists response retry err w',
    do currentRequestor client request retries access w
    = (Returned (response, retry, err), w').
Proof.
  intros Hint. unfold do.
  assert (L : exists response retry err w',
             doLoop currentRequestor (loopFuel retries) client request
               retries 0 w
             = (Returned (response, retry, err), w')).
  { destruct (doLoop_returns client request retries (loopFuel retries) 0 w)
      as (response & retry & err & w' & E & _).
    - destruct retries as [rc|]; cbn [loopFuel]; [|lia].
      repeat split; try lia.
    - exists response, retry, err, w'. exact E. }
  destruct (refusal access request) as [e|]; [|exact L].
  exists None, 0, (Some e), w. reflexivity.
Qed.


(** [DoTrace] after the request dump, by the result of [do]. *)
Lemma DoTrace_after_dump (client : Client) (request : Request)
    (retries : option RetryConfig) (access : option AccessConfig)
    (maxBodyBytes : Z) (w : World) (requestTrace : bytes)
    (response : option Response) (retryCount : Z) (err : option error)
    (w2 : World) :
  DumpRequestOut request = inl requestTrace ->
  do currentRequestor client request retries access (snd (Now dates_Now w))
  = (Returned (response, retryCount, err), w2) ->
  DoTrace currentRequestor DumpRequestOut DumpResponse dates_Now client
    request retries access maxBodyBytes w
  = match err, response with
    | Some e, _ =>
        (Returned
           (Some (Build_Trace request requestTrace None [] []
                    (dates_Now (clockReads w)) (dates_Now (clockReads w2))
                    retryCount),
            Some e),
         snd (Now dates_Now w2))
    | None, None => (NilDereference, snd (Now dates_Now w2))
    | None, Some r =>
        (Returned
           (Some (Build_Trace request requestTrace (Some r)
                    (fst (fst (fst (dumpResponse DumpResponse r maxBodyBytes
                                      (snd (Now dates_Now w2))))))
                    (snd (fst (fst (dumpResponse DumpResponse r maxBodyBytes
                                      (snd (Now dates_Now w2))))))
                    (dates_Now (clockReads w)) (dates_Now (clockReads w2))
                    retryCount),
            snd (fst (dumpResponse DumpResponse r maxBodyBytes
                        (snd (Now dates_Now w2))))),
         snd (dumpResponse DumpResponse r maxBodyBytes
                (snd (Now dates_Now w2))))
    end.
Proof.
  intros Hdump Hdo. unfold DoTrace. rewrite Hdump.
  unfold Now in Hdo |- *. cbn [snd] in Hdo |- *. rewrite Hdo.
  destruct err as [e|]; [reflexivity|].
  destruct response as [r|]; [|reflexivity].
  destruct (dumpResponse DumpResponse r maxBodyBytes _)
    as [[[responseTrace responseBody] err'] w4].
  reflexivity.
Qed.

(** C9. When the dump of the outgoing request fails, [DoTrace] returns a
    nil [Trace] with the error of the dump, and nothing has happened:
    the Requestor was not invoked. *)
Theorem DoTrace_request_dump_fails (client : Client) (request : Request)
    (retries : option RetryConfig) (access : option AccessConfig)
    (maxBodyBytes : Z) (w : World) (e : error) :
  DumpRequestOut request = inr e ->
  DoTrace currentRequestor DumpRequestOut DumpResponse dates_Now client
    request retries access maxBodyBytes w
  = (Returned (None, Some e), w)
  /\ dispatches w
       (snd (DoTrace currentRequestor DumpRequestOut DumpResponse dates_Now
               client request retries access maxBodyBytes w)) = 0.
Proof.
  intros H. unfold DoTrace. rewrite H. cbn [snd].
  split; [reflexivity | unfold dispatches; lia].
Qed.

Lemma do_refused (client : Client) (request : Request)
    (retries : option RetryConfig) (ac : AccessConfig) (w : World)
    (allowed : bool) (e : option error) :
  Allow ac request = (allowed, e) ->
  (allowed = false \/ e <> None) ->
  do currentRequestor client request retries (Some ac) w
  = (Returned (None, 0,
               Some match e with
                    | Some e' => e'
                    | None => denied request
                    end), w).
Proof.
  intros HA Href. unfold do, refusal. rewrite HA.
  destruct e as [e'|]; [reflexivity|].
  destruct Href as [-> | Hn]; [reflexivity | congruence].
Qed.

(** C1, as amended. When [Allow] answers [false], [do] and [Do] return
    the error that names the host of the request, with a retry count of
    0, and [DoTrace] does so once its dump of the request has succeeded;
    when [Allow] answers with an error, that error is returned the same
    way. In either case the Requestor is not invoked and nothing is
    slept: the state of [do] and [Do] is the state they started in. *)
Theorem refused_before_dispatch (client : Client) (request : Request)
    (retries : option RetryConfig) (ac : AccessConfig)
    (maxBodyBytes : Z) (w : World) (allowed : bool) (e : option error) :
  Allow ac request = (allowed, e) ->
  (allowed = false \/ e <> None) ->
  let failure :=
    match e with
    | Some e' => e'
    | None => denied request
    end in
  (e = None -> names failure (URL_Hostname request) = true)
  /\ do currentRequestor client request retries (Some ac) w
     = (Returned (None, 0, Some failure), w)
  /\ Do currentRequestor client request retries (Some ac) w
     = (Returned (None, Some failure), w)
  /\ (forall requestTrace,
         DumpRequestOut request = inl requestTrace ->
         exists t w',
           DoTrace currentRequestor DumpRequestOut DumpResponse dates_Now
             client request retries (Some ac) maxBodyBytes w
           = (Returned (Some t, Some failure), w')
           /\ Retries t = 0
           /\ Response_ t = None
           /\ dispatches w w' = 0
           /\ events w' = events w).
Proof.
  intros HA Href failure.
  split; [|split; [|split]].
  - intros ->. apply contains_app.
  - apply (do_refused client request retries ac w allowed e HA Href).
  - unfold Do.
    rewrite (do_refused client request retries ac w allowed e HA Href).
    reflexivity.
  - intros requestTrace Hdump.
    rewrite (DoTrace_after_dump client request retries (Some ac)
               maxBodyBytes w requestTrace None 0 (Some failure)
               (snd (Now dates_Now w)) Hdump
               (do_refused client request retries ac _ allowed e HA Href)).
    eexists. eexists. split; [reflexivity|].
    cbn [Retries Response_ Now snd events invocations].
    unfold dispatches. cbn [invocations]. repeat split; lia.
Qed.



(** C7. After a call that has answered without error, [DoTrace] with a
    limit of 10 bytes and a body of 11 bytes returns the error of an
    oversized body and a [Trace] with the request dump, the response,
    the dump of its headers, both readings of the clock and the retry
    count, with an empty [ResponseBody]. A body of 11 bytes is a stream
    that delivers them and then ends with [io.EOF]; the same holds of one
    that breaks off after them with a read error in a [Read] of its own.
    Whenever reading the body fails the same [Trace] comes with the error
    of the read, and when the dump of the headers fails the [Trace] comes
    without the header dump and with the error of the dump. *)
Theorem DoTrace_partial_trace (client : Client) (request : Request)
    (retries : option RetryConfig) (access : option AccessConfig)
    (maxBodyBytes : Z) (w : World) (requestTrace : bytes) (r : Response)
    (retryCount : Z) (w2 : World) :
  DumpRequestOut request = inl requestTrace ->
  do currentRequestor client request retries access (snd (Now dates_Now w))
  = (Returned (Some r, retryCount, None), w2) ->
  (forall responseTrace,
      DumpResponse r = inl responseTrace ->
      maxBodyBytes = 10 ->
      List.length (content (Body r)) = 11%nat ->
      failure (Body r) = None \/ sameCall (Body r) = false ->
      fst (DoTrace currentRequestor DumpRequestOut DumpResponse dates_Now
             client request retries access maxBodyBytes w)
      = Returned
          (Some (Build_Trace request requestTrace (Some r) responseTrace []
                   (dates_Now (clockReads w)) (dates_Now (clockReads w2))
                   retryCount),
           Some (bodyTooBig 10)))
  /\ (forall responseTrace e,
         DumpResponse r = inl responseTrace ->
         snd (fst (readBody r maxBodyBytes (snd (Now dates_Now w2))))
         = Some e ->
         fst (DoTrace currentRequestor DumpRequestOut DumpResponse dates_Now
                client request retries access maxBodyBytes w)
         = Returned
             (Some (Build_Trace request requestTrace (Some r) responseTrace
                      [] (dates_Now (clockReads w))
                      (dates_Now (clockReads w2)) retryCount),
              Some e))
  /\ (forall e,
         DumpResponse r = inr e ->
         fst (DoTrace currentRequestor DumpRequestOut DumpResponse dates_Now
                client request retries access maxBodyBytes w)
         = Returned
             (Some (Build_Trace request requestTrace (Some r) [] []
                      (dates_Now (clockReads w))
                      (dates_Now (clockReads w2)) retryCount),
              Some e)).
Proof.
  intros Hdump Hdo.
  rewrite (DoTrace_after_dump client request retries access maxBodyBytes w
             requestTrace (Some r) retryCount None w2 Hdump Hdo).
  cbn [fst].
  assert (R : forall responseTrace e,
             DumpResponse r = inl responseTrace ->
             snd (fst (readBody r maxBodyBytes (snd (Now dates_Now w2))))
             = Some e ->
             fst (dumpResponse DumpResponse r maxBodyBytes
                    (snd (Now dates_Now w2)))
             = (responseTrace, [], Some e)).
  { intros responseTrace e Hh Hr. unfold dumpResponse. rewrite Hh.
    destruct (readBody r maxBodyBytes (snd (Now dates_Now w2)))
      as [[responseBody err] w'].
    cbn [fst snd] in Hr. subst err. reflexivity. }
  split; [|split].
  - intros responseTrace Hh -> Hlen Hend.
    rewrite (R responseTrace (bodyTooBig 10) Hh); [reflexivity|].
    rewrite (readBody_over r 10);
      [reflexivity | unfold MaxInt64; lia | lia | tauto].
  - intros responseTrace e Hh Hr. rewrite (R responseTrace e Hh Hr).
    reflexivity.
  - intros e Hh. unfold dumpResponse. rewrite Hh. reflexivity.
Qed.

(** C4, as amended. [readBody] reads the body and then closes it on each
    of its returns: the body read, a read error, a body over the limit.
    So [DoTrace] has closed the body of the response it returns in the
    [Trace] whenever the dump of the response headers succeeded. The
    loop of [do] only dispatches and sleeps: [do] and [Do] read and close
    no body, neither of a response that is retried past nor of the one
    they return. *)
Theorem bodies_closed_by_readBody (client : Client) (request : Request)
    (retries : option RetryConfig) (access : option AccessConfig)
    (maxBodyBytes : Z) (w : World) :
  (forall response,
      exists n,
        events (snd (readBody response maxBodyBytes w))
        = events w ++ [ReadFrom (stream (Body response)) n;
                       Closed (stream (Body response))])
  /\ (exists evs,
         events (snd (do currentRequestor client request retries access w))
         = events w ++ evs
         /\ events (snd (Do currentRequestor client request retries access
                           w))
            = events w ++ evs
         /\ forallb loopEvent evs = true)
  /\ (forall t e r responseTrace,
         fst (DoTrace currentRequestor DumpRequestOut DumpResponse dates_Now
                client request retries access maxBodyBytes w)
         = Returned (Some t, e) ->
         Response_ t = Some r ->
         DumpResponse r = inl responseTrace ->
         exists evs n,
           events (snd (DoTrace currentRequestor DumpRequestOut DumpResponse
                          dates_Now client request retries access
                          maxBodyBytes w))
           = events w ++ evs ++ [ReadFrom (stream (Body r)) n;
                                 Closed (stream (Body r))]
           /\ forallb loopEvent evs = true).
Proof.
  assert (D : forall w0,
             exists evs,
               events (snd (do currentRequestor client request retries
                              access w0))
               = events w0 ++ evs
               /\ forallb loopEvent evs = true).
  { intros w0. unfold do.
    pose proof (doLoop_events client request retries (loopFuel retries) 0 w0)
      as L.
    destruct (refusal access request) as [e'|]; [|exact L].
    exists []. cbn [snd]. rewrite app_nil_r. split; reflexivity. }
  split; [|split].
  - intros response. apply readBody_world.
  - destruct (D w) as (evs & E & F). exists evs.
    split; [exact E|]. split; [|exact F].
    unfold Do.
    destruct (do currentRequestor client request retries access w)
      as [[[[resp retry] err]| |] w']; exact E.
  - intros t e r responseTrace Ht Hresp Hh.
    unfold DoTrace in Ht |- *.
    destruct (DumpRequestOut request) as [requestTrace|e0];
      [|cbn [fst] in Ht; injection Ht as Ht _; discriminate].
    unfold Now in Ht |- *. cbn [fst snd] in Ht |- *.
    match goal with
    | |- context [do currentRequestor client request retries access ?w1] =>
        destruct (D w1) as (evs & E & F);
        destruct (do currentRequestor client request retries access w1)
          as [[[[resp retry] err]| |] w2]
    end; try discriminate.
    cbn [snd events] in E.
    destruct err as [e'|].
    { cbn [fst] in Ht. injection Ht as <- _. discriminate. }
    destruct resp as [r'|]; [|discriminate].
    unfold dumpResponse in Ht |- *.
    destruct (DumpResponse r') as [rt|e'] eqn:Hh'.
    + match goal with
      | |- context [readBody r' maxBodyBytes ?w3] =>
          destruct (readBody_world r' maxBodyBytes w3) as (_ & _ & n & Ev);
          destruct (readBody r' maxBodyBytes w3) as [[rb err] w4]
      end.
      cbn [snd events] in Ev.
      assert (r' = r) as ->.
      { destruct err; cbn [fst] in Ht; injection Ht as <- _;
          cbn [Response_] in Hresp; congruence. }
      exists evs, n.
      split; [|exact F].
      destruct err; cbn [snd]; rewrite Ev, E, <- app_assoc; reflexivity.
    + cbn [fst] in Ht. injection Ht as <- _. cbn [Response_] in Hresp.
      congruence.
Qed.

End ExecutorFacts.

(** ** The properties at sample calls *)

Lemma readBody_bound_witness :
  fst (readBody (responseOf 200 0 tenBytes) 10 initial) = (tenBytes, None)
  /\ fst (readBody (responseOf 200 0 elevenBytes) 10 initial)
     = ([], Some "webhook response body exceeds 10 bytes limit"%string)
  /\ fst (readBody (responseOf 200 0 elevenBytes) 0 initial)
     = (elevenBytes, None).
Proof.
  split; [|split].
  - apply (proj1 (readBody_bound (responseOf 200 0 tenBytes) 10 initial));
      [lia | reflexivity | vm_compute; reflexivity | reflexivity].
  - apply (proj1 (proj2 (readBody_bound (responseOf 200 0 elevenBytes) 10
                           initial)));
      [unfold MaxInt64; lia | vm_compute; discriminate
      | left; reflexivity].
  - apply (proj2 (proj2 (readBody_bound (responseOf 200 0 elevenBytes) 0
                           initial)));
      [lia | reflexivity].
Defined.

Lemma DoTrace_request_dump_fails_witness :
  DoTrace flaky failsRequestDump dumpsHeaders ticking tt hookRequest
    (Some twice) None 10 initial
  = (Returned (None, Some "http: invalid Content-Length"%string), initial)
  /\ dispatches initial
       (snd (DoTrace flaky failsRequestDump dumpsHeaders ticking tt
               hookRequest (Some twice) None 10 initial)) = 0.
Proof.
  apply (DoTrace_request_dump_fails unit flaky failsRequestDump dumpsHeaders
           ticking tt hookRequest (Some twice) None 10 initial).
  reflexivity.
Defined.

Lemma refused_before_dispatch_witness :
  do flaky tt metadataRequest (Some twice) (Some denyAll) initial
  = (Returned (None, 0, Some "request to 169.254.169.254 denied"%string),
     initial)
  /\ do flaky tt metadataRequest (Some twice) (Some brokenAccess) initial
     = (Returned (None, 0, Some "lookup failed"%string), initial).
Proof.
  split.
  - apply (proj1 (proj2
             (refused_before_dispatch unit flaky dumpsRequest dumpsHeaders
                ticking tt metadataRequest (Some twice) denyAll 10 initial
                false None (eq_refl _) (or_introl (eq_refl _))))).
  - apply (proj1 (proj2
             (refused_before_dispatch unit flaky dumpsRequest dumpsHeaders
                ticking tt metadataRequest (Some twice) brokenAccess 10
                initial false (Some "lookup failed"%string) (eq_refl _)
                (or_introl (eq_refl _))))).
Defined.

(** C1, as stated, fails for [DoTrace]: the request is dumped before the
    access check, so a denied request whose dump fails gets the error of
    the dump, which does not name the host, and no [Trace] to report a
    retry count in. *)
Lemma denied_after_failed_dump :
  Allow denyAll metadataRequest = (false, None)
  /\ DoTrace flaky failsRequestDump dumpsHeaders ticking tt metadataRequest
       (Some twice) (Some denyAll) 10 initial
     = (Returned (None, Some "http: invalid Content-Length"%string), initial)
  /\ names "http: invalid Content-Length" (URL_Hostname metadataRequest)
     = false.
Proof. repeat split; reflexivity. Qed.



Lemma DoTrace_partial_trace_witness :
  fst (DoTrace (serves (responseOf 200 7 elevenBytes)) dumpsRequest
         dumpsHeaders ticking tt hookRequest None None 10 initial)
  = Returned
      (Some (Build_Trace hookRequest postDump
               (Some (responseOf 200 7 elevenBytes)) okHeaders []
               1000 1001 0),
       Some "webhook response body exceeds 10 bytes limit"%string)
  /\ fst (DoTrace (serves (responseOf 200 7 elevenBytes)) dumpsRequest
            failsHeaderDump ticking tt hookRequest None None 10 initial)
     = Returned
         (Some (Build_Trace hookRequest postDump
                  (Some (responseOf 200 7 elevenBytes)) [] [] 1000 1001 0),
          Some "http: ContentLength with Body length 0"%string).
Proof.
  split.
  - apply (proj1
             (DoTrace_partial_trace unit
                (serves (responseOf 200 7 elevenBytes))
                dumpsRequest dumpsHeaders ticking tt hookRequest None None 10
                initial postDump (responseOf 200 7 elevenBytes) 0
                {| invocations := 1; clockReads := 1;
                   events := [Dispatched 0] |}
                (eq_refl _) (eq_refl _))
             okHeaders);
      [reflexivity | reflexivity | reflexivity | left; reflexivity].
  - apply (proj2 (proj2
             (DoTrace_partial_trace unit
                (serves (responseOf 200 7 elevenBytes))
                dumpsRequest failsHeaderDump ticking tt hookRequest None None
                10 initial postDump (responseOf 200 7 elevenBytes) 0
                {| invocations := 1; clockReads := 1;
                   events := [Dispatched 0] |}
                (eq_refl _) (eq_refl _)))
             "http: ContentLength with Body length 0"%string);
      reflexivity.
Defined.

Lemma bodies_closed_by_readBody_witness :
  exists evs n,
    events (snd (DoTrace busy dumpsRequest dumpsHeaders ticking tt hookRequest
                   (Some twice) None 10 initial))
    = events initial ++ evs ++ [ReadFrom 1 n; Closed 1]
    /\ forallb loopEvent evs = true.
Proof.
  apply (proj2 (proj2
           (bodies_closed_by_readBody unit busy dumpsRequest dumpsHeaders
              ticking tt hookRequest (Some twice) None 10 initial))
           (Build_Trace hookRequest postDump
              (Some (responseOf 200 1 (lit "ok"))) okHeaders (lit "ok")
              1000 1001 1)
           None (responseOf 200 1 (lit "ok")) okHeaders);
    reflexivity.
Defined.

(** C4, as stated, fails: the body of the 503 answer that is retried past
    (stream 0) is closed neither before the next dispatch nor later, and
    [Do] returns its response with the body unread and open. *)
Lemma retried_body_left_open :
  events (snd (DoTrace busy dumpsRequest dumpsHeaders ticking tt hookRequest
                 (Some twice) None 10 initial))
  = [Dispatched 0; Slept 100; Dispatched 1; ReadFrom 1 2; Closed 1]
  /\ closedIn 0
       (events (snd (DoTrace busy dumpsRequest dumpsHeaders ticking tt
                       hookRequest (Some twice) None 10 initial))) = false
  /\ Do busy tt hookRequest None None initial
     = (Returned (Some (responseOf 503 0 (lit "busy")), None),
        {| invocations := 1; clockReads := 0; events := [Dispatched 0] |}).
Proof. repeat split; reflexivity. Qed.

(** ** More on the bounded body reader *)

Lemma readBody_below (response : Response) (maxBodyBytes : Z) (w : World) :
  0 < maxBodyBytes < MaxInt64 ->
  Z.of_nat (List.length (content (Body response))) <= maxBodyBytes ->
  fst (readBody response maxBodyBytes w)
  = match failure (Body response) with
    | Some e => ([], Some e)
    | None => (content (Body response), None)
    end.
Proof.
  intros [Hpos Hfit] Hlen. unfold readBody.
  rewrite limit_no_wrap by lia.
  destruct (Z.ltb_spec 0 maxBodyBytes); [|lia].
  rewrite LimitedReadAll_short by lia.
  destruct (failure (Body response)); [reflexivity|].
  destruct (Z.leb_spec
              (maxBodyBytes + 1
               - Z.of_nat (List.length (content (Body response)))) 0);
    [lia | reflexivity].
Qed.

(** With a limit below the largest [int], a body that ends with [io.EOF]
    is returned whole exactly when it has at most [maxBodyBytes] bytes,
    shorter bodies included; otherwise nothing is returned but the error
    of an oversized body. *)
Theorem readBody_succeeds_iff_fits (response : Response) (maxBodyBytes : Z)
    (w : World) :
  0 < maxBodyBytes < MaxInt64 ->
  failure (Body response) = None ->
  fst (readBody response maxBodyBytes w)
  = if Z.of_nat (List.length (content (Body response))) <=? maxBodyBytes
    then (content (Body response), None)
    else ([], Some (bodyTooBig maxBodyBytes)).
Proof.
  intros Hrange Heof.
  destruct (Z.leb_spec (Z.of_nat (List.length (content (Body response))))
              maxBodyBytes) as [Hle|Hgt].
  - rewrite readBody_below by assumption. rewrite Heof. reflexivity.
  - apply readBody_over; [lia | lia | left; exact Heof].
Qed.

Lemma readBody_succeeds_iff_fits_witness :
  fst (readBody (responseOf 200 0 (lit "ok")) 10 initial) = (lit "ok", None)
  /\ fst (readBody (responseOf 200 0 []) 10 initial) = ([], None).
Proof.
  assert (R : 0 < 10 < MaxInt64) by (unfold MaxInt64; lia).
  split.
  - apply (readBody_succeeds_iff_fits (responseOf 200 0 (lit "ok")) 10
             initial R (eq_refl _)).
  - apply (readBody_succeeds_iff_fits (responseOf 200 0 []) 10 initial R
             (eq_refl _)).
Defined.

Lemma readBody_at_MaxInt64 (response : Response) (w : World) :
  fst (readBody response MaxInt64 w) = ([], Some (bodyTooBig MaxInt64)).
Proof.
  unfold readBody. change (0 <? MaxInt64) with true. cbv iota.
  rewrite wrap64_MaxInt64_succ. reflexivity.
Qed.

(** At the largest [int] the limit plus one wraps to a negative number:
    nothing is read and every body, the empty one too, is refused as
    oversized. *)
Theorem readBody_limit_wraps (response : Response) (w : World) :
  fst (readBody response MaxInt64 w) = ([], Some (bodyTooBig MaxInt64)).
Proof. apply readBody_at_MaxInt64. Qed.

(** A body that breaks off with a read error before the limit is reached
    gives that error and no bytes; without a limit the bytes read so far
    come with the error. A stream of just [maxBodyBytes + 1] bytes gives
    its read error if that comes with the last bytes, and is refused as
    oversized if it comes in a [Read] of its own, which is never made;
    and a read error that lies beyond [maxBodyBytes + 1] bytes is never
    seen: the body is refused as oversized. *)
Theorem readBody_read_error (response : Response) (maxBodyBytes : Z)
    (w : World) (e : error) :
  failure (Body response) = Some e ->
  (0 < maxBodyBytes < MaxInt64 ->
   Z.of_nat (List.length (content (Body response))) <= maxBodyBytes ->
   fst (readBody response maxBodyBytes w) = ([], Some e))
  /\ (maxBodyBytes <= 0 ->
      fst (readBody response maxBodyBytes w)
      = (content (Body response), Some e))
  /\ (0 < maxBodyBytes < MaxInt64 ->
      Z.of_nat (List.length (content (Body response))) = maxBodyBytes + 1 ->
      fst (readBody response maxBodyBytes w)
      = ([], Some (if sameCall (Body response) then e
                   else bodyTooBig maxBodyBytes)))
  /\ (0 < maxBodyBytes <= MaxInt64 ->
      maxBodyBytes + 1 < Z.of_nat (List.length (content (Body response))) ->
      fst (readBody response maxBodyBytes w)
      = ([], Some (bodyTooBig maxBodyBytes))).
Proof.
  intros Hfail. split; [|split; [|split]].
  - intros Hrange Hlen. rewrite readBody_below by assumption.
    rewrite Hfail. reflexivity.
  - intros Hle. rewrite readBody_unbounded by assumption.
    rewrite Hfail. reflexivity.
  - intros Hrange Hlen. rewrite readBody_just_over by assumption.
    rewrite Hfail. reflexivity.
  - intros Hrange Hlen. apply readBody_over; [assumption | lia | tauto].
Qed.

Lemma readBody_read_error_witness :
  fst (readBody (brokenResponse 0 tenBytes) 10 initial)
  = ([], Some "unexpected EOF"%string)
  /\ fst (readBody (brokenResponse 0 tenBytes) 0 initial)
     = (tenBytes, Some "unexpected EOF"%string)
  /\ fst (readBody (cutOffResponse 0 elevenBytes) 10 initial)
     = ([], Some "unexpected EOF"%string)
  /\ fst (readBody (brokenResponse 0 elevenBytes) 10 initial)
     = ([], Some "webhook response body exceeds 10 bytes limit"%string)
  /\ fst (readBody (cutOffResponse 0 (elevenBytes ++ lit "B")) 10 initial)
     = ([], Some "webhook response body exceeds 10 bytes limit"%string).
Proof.
  assert (R : 0 < 10 < MaxInt64) by (unfold MaxInt64; lia).
  assert (R' : 0 < 10 <= MaxInt64) by (unfold MaxInt64; lia).
  split; [|split; [|split; [|split]]].
  - apply (proj1 (readBody_read_error (brokenResponse 0 tenBytes) 10 initial
                    "unexpected EOF"%string (eq_refl _)) R).
    vm_compute. discriminate.
  - apply (proj1 (proj2 (readBody_read_error (brokenResponse 0 tenBytes) 0
                           initial "unexpected EOF"%string (eq_refl _)))).
    lia.
  - apply (proj1 (proj2 (proj2
             (readBody_read_error (cutOffResponse 0 elevenBytes) 10 initial
                "unexpected EOF"%string (eq_refl _))))
             R).
    reflexivity.
  - apply (proj1 (proj2 (proj2
             (readBody_read_error (brokenResponse 0 elevenBytes) 10 initial
                "unexpected EOF"%string (eq_refl _))))
             R).
    reflexivity.
  - apply (proj2 (proj2 (proj2
             (readBody_read_error
                (cutOffResponse 0 (elevenBytes ++ lit "B")) 10 initial
                "unexpected EOF"%string (eq_refl _))))
             R').
    reflexivity.
Defined.

(** What [readBody] returns under a limit never exceeds the limit. *)
Lemma readBody_length (response : Response) (maxBodyBytes : Z) (w : World) :
  0 < maxBodyBytes <= MaxInt64 ->
  Z.of_nat (List.length (fst (fst (readBody response maxBodyBytes w))))
  <= maxBodyBytes.
Proof.
  intros [Hpos Hint].
  destruct (Z.eq_dec maxBodyBytes MaxInt64) as [->|Hne].
  - rewrite readBody_at_MaxInt64. cbn. lia.
  - destruct (Z.leb_spec (Z.of_nat (List.length (content (Body response))))
                maxBodyBytes) as [Hle|Hgt].
    + rewrite readBody_below by lia.
      destruct (failure (Body response)); cbn [fst List.length]; lia.
    + destruct (Z.eq_dec (Z.of_nat (List.length (content (Body response))))
                  (maxBodyBytes + 1)) as [Heq|Hneq].
      * rewrite readBody_just_over by lia. cbn [fst List.length]. lia.
      * rewrite readBody_over by (try lia; right; right; lia).
        cbn [fst List.length]. lia.
Qed.

(** ** More on the executor *)

Section ExecutorOrder.

Variable Client : Type.
Variable currentRequestor :
  nat -> Client -> Request -> option Response * option error.
Variable DumpRequestOut : Request -> bytes + error.
Variable DumpResponse : Response -> bytes + error.
Variable dates_Now : nat -> Time.

(** The run of the loop in full: the attempts it makes, what it sleeps
    between them, whose answer it returns, why it went on after each
    attempt but the last and why it stopped there. *)
Lemma doLoop_run (client : Client) (request : Request) (rc : RetryConfig) :
  forall fuel retry w,
  0 <= retry ->
  MaxRetries rc <= MaxInt64 ->
  (Z.to_nat (MaxRetries rc - retry) < fuel)%nat ->
  exists response retry' err w',
    doLoop currentRequestor fuel client request (Some rc) retry w
    = (Returned (response, retry', err), w')
    /\ retry <= retry'
    /\ events w'
       = events w
         ++ schedule rc (invocations w) retry (Z.to_nat (retry' - retry))
    /\ invocations w'
       = S (invocations w + Z.to_nat (retry' - retry))
    /\ (response, err)
       = currentRequestor (invocations w + Z.to_nat (retry' - retry))
           client request
    /\ retryAfter (Some rc) request response retry' = None
    /\ (forall k,
           retry <= k < retry' ->
           k < MaxRetries rc
           /\ ShouldRetry rc request
                (fst (currentRequestor
                        (invocations w + Z.to_nat (k - retry)) client
                        request))
                (Backoff rc k) = true).
Proof.
  induction fuel as [|fuel IH]; intros retry w H0 Hmax Hf; [lia|].
  cbn [doLoop]. unfold dispatch.
  destruct (currentRequestor (invocations w) client request)
    as [response err] eqn:Ex.
  destruct (retryAfter (Some rc) request response retry) as [backoff|] eqn:R.
  - pose proof R as R'. unfold retryAfter in R'.
    destruct (Z.ltb_spec retry (MaxRetries rc)) as [Hlt|]; [|discriminate].
    destruct (ShouldRetry rc request response (Backoff rc retry)) eqn:Sh;
      [|discriminate].
    injection R' as <-.
    unfold int64_add.
    rewrite wrap64_id by (unfold MinInt64, MaxInt64 in *; lia).
    match goal with
    | |- context [doLoop _ fuel _ _ _ ?r ?w1] =>
        destruct (IH r w1) as (resp' & retry' & err' & w' & E & Hle & Hev
                               & Hinv & Hlast & Hstop & Hwhy);
          [lia | lia | lia |]
    end.
    cbn [emit invocations events] in Hev, Hinv, Hlast, Hwhy.
    exists resp', retry', err', w'.
    assert (Hn : Z.to_nat (retry' - retry)
                 = S (Z.to_nat (retry' - (retry + 1)))) by lia.
    split; [exact E|]. split; [lia|].
    split; [|split; [|split; [|split]]].
    + rewrite Hev, Hn. cbn [schedule]. rewrite <- !app_assoc. reflexivity.
    + rewrite Hinv, Hn. lia.
    + rewrite Hlast, Hn. f_equal. lia.
    + exact Hstop.
    + intros k Hk. destruct (Z.eq_dec k retry) as [->|Hne].
      * rewrite Z.sub_diag. cbn [Z.to_nat]. rewrite Nat.add_0_r, Ex.
        split; [exact Hlt | exact Sh].
      * destruct (Hwhy k) as [Hk1 Hk2]; [lia|]. split; [exact Hk1|].
        replace (invocations w + Z.to_nat (k - retry))%nat
          with (S (invocations w) + Z.to_nat (k - (retry + 1)))%nat by lia.
        exact Hk2.
  - exists response, retry, err. eexists. split; [reflexivity|].
    rewrite Z.sub_diag. cbn [Z.to_nat schedule invocations events].
    rewrite Nat.add_0_r, Ex.
    repeat split; try lia; try assumption.
Qed.

Lemma do_run (client : Client) (request : Request) (rc : RetryConfig)
    (access : option AccessConfig) (w : World) :
  MaxRetries rc <= MaxInt64 ->
  passes access request = true ->
  exists response retry err w',
    do currentRequestor client request (Some rc) access w
    = (Returned (response, retry, err), w')
    /\ 0 <= retry
    /\ events w' = events w ++ schedule rc (invocations w) 0 (Z.to_nat retry)
    /\ invocations w' = S (invocations w + Z.to_nat retry)
    /\ (response, err)
       = currentRequestor (invocations w + Z.to_nat retry) client request
    /\ retryAfter (Some rc) request response retry = None
    /\ (forall k,
           0 <= k < retry ->
           k < MaxRetries rc
           /\ ShouldRetry rc request
                (fst (currentRequestor (invocations w + Z.to_nat k) client
                        request))
                (Backoff rc k) = true).
Proof.
  intros Hmax Hpass.
  rewrite (do_passes Client currentRequestor client request (Some rc) access w
             Hpass).
  destruct (doLoop_run client request rc (loopFuel (Some rc)) 0 w)
    as (response & retry & err & w' & E & Hle & Hev & Hinv & Hlast & Hstop
        & Hwhy); [lia | exact Hmax | cbn [loopFuel]; lia |].
  rewrite Z.sub_0_r in Hev, Hinv, Hlast.
  exists response, retry, err, w'.
  repeat split; try assumption.
  - destruct (Hwhy k) as [H1 _]; [assumption | exact H1].
  - destruct (Hwhy k) as [_ H2]; [assumption|].
    rewrite Z.sub_0_r in H2. exact H2.
Qed.

(** The attempts of a call come one after the other: every attempt that
    is retried is followed by the sleep of the backoff of its retry count
    and then by the next attempt, and [do] does nothing else. *)
Theorem do_attempts_in_order (client : Client) (request : Request)
    (rc : RetryConfig) (access : option AccessConfig) (w : World) :
  MaxRetries rc <= MaxInt64 ->
  passes access request = true ->
  exists response retry err w',
    do currentRequestor client request (Some rc) access w
    = (Returned (response, retry, err), w')
    /\ 0 <= retry
    /\ events w' = events w ++ schedule rc (invocations w) 0 (Z.to_nat retry).
Proof.
  intros Hmax Hpass.
  destruct (do_run client request rc access w Hmax Hpass)
    as (response & retry & err & w' & E & H0 & Hev & _).
  exists response, retry, err, w'. repeat split; assumption.
Qed.


(** [do] goes on to another attempt only when the retry count is below
    [MaxRetries()] and [ShouldRetry] said so for the answer at hand, and
    it stops at the first attempt for which one of the two fails. *)
Theorem do_retries_when_told (client : Client) (request : Request)
    (rc : RetryConfig) (access : option AccessConfig) (w : World) :
  MaxRetries rc <= MaxInt64 ->
  passes access request = true ->
  exists response retry err w',
    do currentRequestor client request (Some rc) access w
    = (Returned (response, retry, err), w')
    /\ (forall k,
           0 <= k < retry ->
           k < MaxRetries rc
           /\ ShouldRetry rc request
                (fst (currentRequestor (invocations w + Z.to_nat k) client
                        request))
                (Backoff rc k) = true)
    /\ (MaxRetries rc <= retry
        \/ ShouldRetry rc request response (Backoff rc retry) = false).
Proof.
  intros Hmax Hpass.
  destruct (do_run client request rc access w Hmax Hpass)
    as (response & retry & err & w' & E & _ & _ & _ & _ & Hstop & Hwhy).
  exists response, retry, err, w'.
  split; [exact E|]. split; [exact Hwhy|].
  unfold retryAfter in Hstop.
  destruct (Z.ltb_spec retry (MaxRetries rc)); [|left; lia].
  destruct (ShouldRetry rc request response (Backoff rc retry));
    [discriminate | right; reflexivity].
Qed.

(** With a [ShouldRetry] that always says yes, [do] uses up its retries:
    it dispatches [MaxRetries() + 1] times and returns a retry count of
    [MaxRetries()]. *)
Theorem do_exhausts_retries (client : Client) (request : Request)
    (rc : RetryConfig) (access : option AccessConfig) (w : World) :
  0 <= MaxRetries rc <= MaxInt64 ->
  passes access request = true ->
  (forall response d, ShouldRetry rc request response d = true) ->
  exists response err w',
    do currentRequestor client request (Some rc) access w
    = (Returned (response, MaxRetries rc, err), w')
    /\ dispatches w w' = MaxRetries rc + 1.
Proof.
  intros [H0 Hmax] Hpass Hyes.
  destruct (do_run client request rc access w Hmax Hpass)
    as (response & retry & err & w' & E & Hr & _ & Hinv & _ & Hstop & Hwhy).
  assert (Hge : MaxRetries rc <= retry).
  { unfold retryAfter in Hstop.
    destruct (Z.ltb_spec retry (MaxRetries rc)); [|lia].
    rewrite Hyes in Hstop. discriminate. }
  assert (Hle : retry <= MaxRetries rc).
  { destruct (Z.eq_dec retry 0) as [->|Hne]; [lia|].
    destruct (Hwhy (retry - 1)) as [Hk _]; lia. }
  assert (retry = MaxRetries rc) as -> by lia.
  exists response, err, w'. split; [exact E|].
  unfold dispatches. lia.
Qed.

(** Without a retry configuration, or with [MaxRetries()] at 0 or below,
    [do] dispatches once, sleeps never and returns that answer with a
    retry count of 0, whatever [ShouldRetry] would say. *)
Theorem do_single_attempt (client : Client) (request : Request)
    (retries : option RetryConfig) (access : option AccessConfig)
    (w : World) :
  passes access request = true ->
  match retries with
  | Some rc => MaxRetries rc <= 0
  | None => True
  end ->
  do currentRequestor client request retries access w
  = (Returned (fst (currentRequestor (invocations w) client request), 0,
               snd (currentRequestor (invocations w) client request)),
     {| invocations := S (invocations w);
        clockReads := clockReads w;
        events := events w ++ [Dispatched (invocations w)] |}).
Proof.
  intros Hpass Hnone.
  rewrite (do_passes Client currentRequestor client request retries access w
             Hpass).
  assert (R : forall response, retryAfter retries request response 0 = None).
  { intros response. unfold retryAfter. destruct retries as [rc|]; [|reflexivity].
    destruct (Z.ltb_spec 0 (MaxRetries rc)); [lia | reflexivity]. }
  destruct (loopFuel retries) as [|fuel] eqn:F;
    [destruct retries; discriminate|].
  cbn [doLoop]. unfold dispatch.
  destruct (currentRequestor (invocations w) client request)
    as [response err].
  rewrite R. reflexivity.
Qed.


End ExecutorOrder.

(** ** More on the trace *)

(** When [readBody] returns without error it returns the whole body, and
    the body has ended with [io.EOF]. *)
Lemma readBody_without_error (response : Response) (maxBodyBytes : Z)
    (w : World) :
  snd (fst (readBody response maxBodyBytes w)) = None ->
  fst (fst (readBody response maxBodyBytes w)) = content (Body response)
  /\ failure (Body response) = None.
Proof.
  unfold readBody, ReadAll.
  destruct (0 <? maxBodyBytes).
  - destruct (LimitedReadAll (Body response) (int64_add maxBodyBytes 1))
      as [[bodyBytes err] N] eqn:L.
    destruct err as [e|]; [cbn [fst snd]; discriminate|].
    destruct (N <=? 0) eqn:EN; cbn [fst snd]; [discriminate|]. intros _.
    unfold LimitedReadAll in L.
    destruct (int64_add maxBodyBytes 1 <=? 0) eqn:E1.
    + inversion L; subst. congruence.
    + destruct (int64_add maxBodyBytes 1
                <? Z.of_nat (List.length (content (Body response)))).
      * inversion L; subst. discriminate.
      * destruct (int64_add maxBodyBytes 1
                  =? Z.of_nat (List.length (content (Body response)))).
        -- inversion L; subst. discriminate.
        -- inversion L; subst. split; congruence.
  - cbn [fst snd]. intros ->. split; reflexivity.
Qed.

Lemma readBody_clock (response : Response) (maxBodyBytes : Z) (w : World) :
  clockReads (snd (readBody response maxBodyBytes w)) = clockReads w.
Proof. apply readBody_world. Qed.

Section TraceFacts.

Variable Client : Type.
Variable currentRequestor :
  nat -> Client -> Request -> option Response * option error.
Variable DumpRequestOut : Request -> bytes + error.
Variable DumpResponse : Response -> bytes + error.
Variable dates_Now : nat -> Time.

Lemma doLoop_clock (client : Client) (request : Request)
    (retries : option RetryConfig) :
  forall fuel retry w,
  clockReads (snd (doLoop currentRequestor fuel client request retries
                     retry w)) = clockReads w.
Proof.
  induction fuel as [|fuel IH]; intros retry w; [reflexivity|].
  cbn [doLoop]. unfold dispatch.
  destruct (currentRequestor (invocations w) client request)
    as [response err].
  destruct (retryAfter retries request response retry) as [backoff|];
    [|reflexivity].
  rewrite IH. reflexivity.
Qed.

(** [do] never reads the clock. *)
Lemma do_clock (client : Client) (request : Request)
    (retries : option RetryConfig) (access : option AccessConfig)
    (w : World) :
  clockReads (snd (do currentRequestor client request retries access w))
  = clockReads w.
Proof.
  unfold do. destruct (refusal access request); [reflexivity|].
  apply doLoop_clock.
Qed.

(** What [dumpResponse] returns, by the header dump and by [readBody]. *)
Lemma dumpResponse_result (r : Response) (maxBodyBytes : Z) (w : World) :
  fst (dumpResponse DumpResponse r maxBodyBytes w)
  = match DumpResponse r with
    | inr e => ([], [], Some e)
    | inl responseTrace =>
        match snd (fst (readBody r maxBodyBytes w)) with
        | Some e => (responseTrace, [], Some e)
        | None =>
            (responseTrace, fst (fst (readBody r maxBodyBytes w)), None)
        end
    end.
Proof.
  unfold dumpResponse. destruct (DumpResponse r); [|reflexivity].
  destruct (readBody r maxBodyBytes w) as [[responseBody err] w'].
  destruct err; reflexivity.
Qed.

Lemma dumpResponse_clock (r : Response) (maxBodyBytes : Z) (w : World) :
  clockReads (snd (dumpResponse DumpResponse r maxBodyBytes w))
  = clockReads w.
Proof.
  unfold dumpResponse. destruct (DumpResponse r); [|reflexivity].
  pose proof (readBody_clock r maxBodyBytes w) as C.
  destruct (readBody r maxBodyBytes w) as [[responseBody err] w'].
  destruct err; exact C.
Qed.

(** A [Trace] that [DoTrace] returns, field by field. *)
Lemma DoTrace_returned (client : Client) (request : Request)
    (retries : option RetryConfig) (access : option AccessConfig)
    (maxBodyBytes : Z) (w : World) (t : Trace) (e : option error) :
  fst (DoTrace currentRequestor DumpRequestOut DumpResponse dates_Now client
         request retries access maxBodyBytes w) = Returned (Some t, e) ->
  exists response retryCount err w2,
    DumpRequestOut request = inl (RequestTrace t)
    /\ do currentRequestor client request retries access
         (snd (Now dates_Now w))
       = (Returned (response, retryCount, err), w2)
    /\ Request_ t = request
    /\ StartTime t = dates_Now (clockReads w)
    /\ EndTime t = dates_Now (S (clockReads w))
    /\ Retries t = retryCount
    /\ clockReads
         (snd (DoTrace currentRequestor DumpRequestOut DumpResponse dates_Now
                 client request retries access maxBodyBytes w))
       = S (S (clockReads w))
    /\ match err with
       | Some e' =>
           e = Some e' /\ Response_ t = None
           /\ ResponseTrace t = [] /\ ResponseBody t = []
       | None =>
           exists r,
             response = Some r /\ Response_ t = Some r
             /\ (ResponseTrace t, ResponseBody t, e)
                = fst (dumpResponse DumpResponse r maxBodyBytes
                         (snd (Now dates_Now w2)))
       end.
Proof.
  intros H.
  destruct (DumpRequestOut request) as [requestTrace|e0] eqn:Hdump.
  - pose proof (do_clock client request retries access
                  (snd (Now dates_Now w))) as C.
    destruct (do currentRequestor client request retries access
                (snd (Now dates_Now w)))
      as [[[[response retryCount] err]| |] w2] eqn:Hdo.
    + rewrite (DoTrace_after_dump Client currentRequestor DumpRequestOut
                 DumpResponse dates_Now client request retries access
                 maxBodyBytes w requestTrace response retryCount err w2
                 Hdump Hdo) in H |- *.
      cbn [snd Now clockReads] in C.
      exists response, retryCount, err, w2.
      destruct err as [e'|]; [|destruct response as [r|]];
        cbn [fst snd] in H |- *; try discriminate;
        injection H as <- <-; cbn [RequestTrace Request_ StartTime EndTime
                                     Retries Response_ ResponseTrace
                                     ResponseBody];
        rewrite ?dumpResponse_clock; cbn [Now snd clockReads]; rewrite C;
        repeat split.
      exists r. repeat split.
      destruct (dumpResponse DumpResponse r maxBodyBytes _)
        as [[[rt rb] err'] w4]. reflexivity.
    + unfold DoTrace in H. rewrite Hdump in H.
      unfold Now in Hdo, H. cbn [snd] in Hdo. cbn [fst snd] in H.
      rewrite Hdo in H. discriminate.
    + unfold DoTrace in H. rewrite Hdump in H.
      unfold Now in Hdo, H. cbn [snd] in Hdo. cbn [fst snd] in H.
      rewrite Hdo in H. discriminate.
  - unfold DoTrace in H. rewrite Hdump in H. discriminate.
Qed.

(** The body kept in a [Trace] never exceeds a positive limit, whatever
    the length of the body sent. *)
Theorem DoTrace_body_within_limit (client : Client) (request : Request)
    (retries : option RetryConfig) (access : option AccessConfig)
    (maxBodyBytes : Z) (w : World) (t : Trace) (e : option error) :
  0 < maxBodyBytes <= MaxInt64 ->
  fst (DoTrace currentRequestor DumpRequestOut DumpResponse dates_Now client
         request retries access maxBodyBytes w) = Returned (Some t, e) ->
  Z.of_nat (List.length (ResponseBody t)) <= maxBodyBytes.
Proof.
  intros Hrange H.
  destruct (DoTrace_returned client request retries access maxBodyBytes w t e
              H)
    as (response & retryCount & err & w2 & _ & _ & _ & _ & _ & _ & _ & Hr).
  destruct err as [e'|].
  - destruct Hr as (_ & _ & _ & ->). cbn. lia.
  - destruct Hr as (r & _ & _ & Hd). rewrite dumpResponse_result in Hd.
    destruct (DumpResponse r) as [hdr|e0].
    + pose proof (readBody_length r maxBodyBytes (snd (Now dates_Now w2))
                    Hrange) as L.
      destruct (snd (fst (readBody r maxBodyBytes (snd (Now dates_Now w2)))));
        injection Hd as _ -> _; [cbn; lia | exact L].
    + injection Hd as _ -> _. cbn. lia.
Qed.

(** When [DoTrace] returns no error the [Trace] is complete: it holds the
    response, the dump of its headers and the whole of its body, which has
    ended with [io.EOF]. *)
Theorem DoTrace_success_is_complete (client : Client) (request : Request)
    (retries : option RetryConfig) (access : option AccessConfig)
    (maxBodyBytes : Z) (w : World) (t : Trace) :
  fst (DoTrace currentRequestor DumpRequestOut DumpResponse dates_Now client
         request retries access maxBodyBytes w) = Returned (Some t, None) ->
  exists r,
    Response_ t = Some r
    /\ DumpResponse r = inl (ResponseTrace t)
    /\ ResponseBody t = content (Body r)
    /\ failure (Body r) = None
    /\ DumpRequestOut request = inl (RequestTrace t).
Proof.
  intros H.
  destruct (DoTrace_returned client request retries access maxBodyBytes w t
              None H)
    as (response & retryCount & err & w2 & Hq & _ & _ & _ & _ & _ & _ & Hr).
  destruct err as [e'|]; [destruct Hr as (Hn & _); discriminate|].
  destruct Hr as (r & _ & Hresp & Hd). rewrite dumpResponse_result in Hd.
  exists r. split; [exact Hresp|].
  destruct (DumpResponse r) as [hdr|e0]; [|discriminate].
  destruct (snd (fst (readBody r maxBodyBytes (snd (Now dates_Now w2)))))
    eqn:Hb; [discriminate|].
  destruct (readBody_without_error r maxBodyBytes _ Hb) as [Hc Hf].
  injection Hd as -> ->.
  repeat split; assumption.
Qed.

(** A [Trace] that comes with an error holds no body, and one without a
    response holds no header dump either: nothing is kept of a body that
    was read in part or was too long. *)
Theorem DoTrace_error_keeps_no_body (client : Client) (request : Request)
    (retries : option RetryConfig) (access : option AccessConfig)
    (maxBodyBytes : Z) (w : World) (t : Trace) (e : error) :
  fst (DoTrace currentRequestor DumpRequestOut DumpResponse dates_Now client
         request retries access maxBodyBytes w) = Returned (Some t, Some e) ->
  ResponseBody t = []
  /\ (Response_ t = None -> ResponseTrace t = []).
Proof.
  intros H.
  destruct (DoTrace_returned client request retries access maxBodyBytes w t
              (Some e) H)
    as (response & retryCount & err & w2 & _ & _ & _ & _ & _ & _ & _ & Hr).
  destruct err as [e'|].
  - destruct Hr as (_ & _ & Ht & Hb). split; [exact Hb | intros _; exact Ht].
  - destruct Hr as (r & _ & Hresp & Hd). rewrite dumpResponse_result in Hd.
    split; [|intros Hn; congruence].
    destruct (DumpResponse r) as [hdr|e0];
      [destruct (snd (fst (readBody r maxBodyBytes _)))|];
      inversion Hd; congruence.
Qed.

(** [DoTrace] reads the clock twice, however many attempts and sleeps the
    call makes: the start time of the [Trace] is the first of the two
    readings and the end time the second. *)
Theorem DoTrace_reads_clock_twice (client : Client) (request : Request)
    (retries : option RetryConfig) (access : option AccessConfig)
    (maxBodyBytes : Z) (w : World) (t : Trace) (e : option error) :
  fst (DoTrace currentRequestor DumpRequestOut DumpResponse dates_Now client
         request retries access maxBodyBytes w) = Returned (Some t, e) ->
  StartTime t = dates_Now (clockReads w)
  /\ EndTime t = dates_Now (S (clockReads w))
  /\ clockReads
       (snd (DoTrace currentRequestor DumpRequestOut DumpResponse dates_Now
               client request retries access maxBodyBytes w))
     = S (S (clockReads w)).
Proof.
  intros H.
  destruct (DoTrace_returned client request retries access maxBodyBytes w t e
              H)
    as (response & retryCount & err & w2 & _ & _ & _ & Hs & He & _ & Hc & _).
  repeat split; assumption.
Qed.

End TraceFacts.

(** ** More on the sanitizer *)

Lemma DecodeRune_size_rejected_app (c0 : byte) (r0 : bytes) (c : byte)
    (r : bytes) :
  utf8.first c0 <> utf8.as_ -> utf8.DecodeRune_size (c0 :: r0) = 1%nat ->
  utf8.first c = utf8.as_ ->
  utf8.DecodeRune_size ((c0 :: r0) ++ c :: r) = 1%nat.
Proof.
  intros Hna Hsz Hc.
  pose proof (accepted_ascii utf8.locb utf8.hicb c Hc (N.le_refl _)) as Hcb.
  pose proof (first_lead_bounds c0) as B0.
  cbn [utf8.DecodeRune_size] in Hsz. cbn [app utf8.DecodeRune_size].
  destruct (utf8.first c0) eqn:E0; try congruence; try reflexivity;
    destruct B0 as [_ Blo];
    pose proof (accepted_ascii lo hi c Hc Blo) as Hlo;
    destruct r0 as [|b1 [|b2 [|b3 r0]]]; cbn [app];
    rewrite ?Hlo, ?Hcb; cbn [andb]; try reflexivity;
    repeat match type of Hsz with
           | context [utf8.accepted ?l ?h ?b] =>
               destruct (utf8.accepted l h b); cbn [andb] in Hsz |- *
           end;
    rewrite ?Hcb, ?andb_false_r; cbn [andb];
    try discriminate; try reflexivity;
    destruct r as [|? [|? r]]; rewrite ?Hcb, ?andb_false_r; reflexivity.
Qed.

(** [ToValidUTF8] works on the two sides of an ASCII byte apart. *)
Lemma ToValidUTF8_from_app_ascii (rep a : bytes) (c : byte) (r : bytes) :
  utf8.first c = utf8.as_ ->
  forall inv,
  bytes_.ToValidUTF8_from inv (a ++ c :: r) rep
  = bytes_.ToValidUTF8_from inv a rep
    ++ c :: bytes_.ToValidUTF8_from false r rep.
Proof.
  intros Hc.
  induction a as [| c0 r0 Has IH | c0 r0 Hna Hsz IH | c0 b1 r0 lo hi Hc0 H1 IH
                 | c0 b1 b2 r0 lo hi Hc0 H1 H2 IH
                 | c0 b1 b2 b3 r0 lo hi Hc0 H1 H2 H3 IH] using runes_ind;
    intros inv.
  - cbn [app bytes_.ToValidUTF8_from]. rewrite Hc. reflexivity.
  - cbn [app bytes_.ToValidUTF8_from]. rewrite Has, IH. reflexivity.
  - pose proof (DecodeRune_size_rejected_app c0 r0 c r Hna Hsz Hc) as Hsz'.
    cbn [app] in Hsz' |- *.
    rewrite (ToValidUTF8_rejected inv c0 _ rep Hna Hsz').
    rewrite (ToValidUTF8_rejected inv c0 _ rep Hna Hsz).
    rewrite IH, <- app_assoc. reflexivity.
  - cbn [app bytes_.ToValidUTF8_from]. rewrite Hc0, H1, IH. reflexivity.
  - cbn [app bytes_.ToValidUTF8_from]. rewrite Hc0, H1, H2, IH. reflexivity.
  - cbn [app bytes_.ToValidUTF8_from]. rewrite Hc0, H1, H2, H3, IH.
    reflexivity.
Qed.

Lemma replaceNullChars_app (a b : bytes) :
  replaceNullChars (a ++ b) = replaceNullChars a ++ replaceNullChars b.
Proof. rewrite !replaceNullChars_flat_map. apply flat_map_app. Qed.

(** The header section with its separator is sanitized as the header
    section followed by the separator as it is. *)
Lemma sanitized_header_section (h : bytes) :
  replaceNullChars (bytes_.ToValidUTF8 (h ++ CRLFCRLF) replacementChar)
  = replaceNullChars (bytes_.ToValidUTF8 h replacementChar) ++ CRLFCRLF.
Proof.
  unfold bytes_.ToValidUTF8, CRLFCRLF.
  rewrite ToValidUTF8_from_app_ascii by reflexivity.
  rewrite replaceNullChars_app. reflexivity.
Qed.

Lemma HasPrefix_app_long (p x y : bytes) :
  (List.length p <= List.length x)%nat ->
  bytes_.HasPrefix (x ++ y) p = bytes_.HasPrefix x p.
Proof.
  revert x. induction p as [|q p IH]; intros x Hl; [reflexivity|].
  destruct x as [|c x]; [cbn in Hl; lia|].
  cbn [app bytes_.HasPrefix]. rewrite IH; [reflexivity|]. cbn in Hl. lia.
Qed.

Lemma cutAtFirst_here (s sep : bytes) :
  bytes_.HasPrefix s sep = true ->
  bytes_.cutAtFirst s sep = Some ([], skipn (List.length sep) s).
Proof. intros H. destruct s; cbn [bytes_.cutAtFirst]; rewrite H; reflexivity. Qed.

(** The cut falls at a separator that no earlier one overlaps. *)
Lemma cutAtFirst_at (init : bytes) (l : byte) (h b : bytes) :
  bytes_.Contains (h ++ init) (init ++ [l]) = false ->
  bytes_.cutAtFirst (h ++ (init ++ [l]) ++ b) (init ++ [l]) = Some (h, b).
Proof.
  induction h as [|c h IH]; intros Hno.
  - cbn [app]. rewrite cutAtFirst_here by apply HasPrefix_app.
    rewrite skipn_app, skipn_all, Nat.sub_diag. reflexivity.
  - cbn [app bytes_.Contains] in Hno. apply orb_false_iff in Hno.
    destruct Hno as [Hp Hc].
    cbn [app bytes_.cutAtFirst].
    assert (Hp' : bytes_.HasPrefix (c :: h ++ (init ++ [l]) ++ b)
                    (init ++ [l]) = false).
    { replace (c :: h ++ (init ++ [l]) ++ b)
        with ((c :: h ++ init) ++ ([l] ++ b))
        by (cbn [app]; rewrite <- !app_assoc; reflexivity).
      rewrite HasPrefix_app_long; [exact Hp|].
      cbn [List.length]. rewrite !length_app. cbn [List.length]. lia. }
    rewrite Hp', (IH Hc). reflexivity.
Qed.

(** A request dump is cut at its first blank line only: the header
    section before it is sanitized and kept, and what follows it, further
    blank lines included, is the body, which is replaced by the
    placeholder as a whole unless it is valid UTF-8. *)
Theorem SanitizedRequest_cut_at_first_blank_line (t : Trace)
    (placeholder h b : bytes) :
  RequestTrace t = h ++ CRLFCRLF ++ b ->
  bytes_.Contains (h ++ [x0d; x0a; x0d]) CRLFCRLF = false ->
  SanitizedRequest t placeholder
  = replaceNullChars (bytes_.ToValidUTF8 h replacementChar) ++ CRLFCRLF
    ++ (if utf8.Valid b then replaceNullChars b else placeholder).
Proof.
  intros Hd Hno.
  pose proof (cutAtFirst_at [x0d; x0a; x0d] x0a h b Hno) as E.
  change ([x0d; x0a; x0d] ++ [x0a]) with CRLFCRLF in E. rewrite <- Hd in E.
  unfold SanitizedRequest. rewrite (requestSections_found t h b E).
  unfold santizedTrace. rewrite sanitized_header_section, <- app_assoc.
  reflexivity.
Qed.

Lemma SanitizedRequest_cut_at_first_blank_line_witness :
  SanitizedRequest (traceOf uploadDump [] []) (lit "[binary]")
  = lit "PUT /img HTTP/1.1" ++ CRLF ++ lit "Host: example.com" ++ CRLFCRLF
    ++ lit "[binary]".
Proof.
  rewrite (SanitizedRequest_cut_at_first_blank_line
             (traceOf uploadDump [] []) (lit "[binary]")
             (lit "PUT /img HTTP/1.1" ++ CRLF ++ lit "Host: example.com")
             (pngBody ++ CRLFCRLF ++ lit "tail")
             (eq_refl _) (eq_refl _)).
  reflexivity.
Defined.

Lemma SanitizedRequest_shape (t : Trace) (placeholder : bytes) :
  exists x y, SanitizedRequest t placeholder = x ++ CRLFCRLF ++ y.
Proof.
  unfold SanitizedRequest.
  destruct (bytes_.cutAtFirst (RequestTrace t) CRLFCRLF) as [[h b]|] eqn:E.
  - rewrite (requestSections_found t h b E). unfold santizedTrace.
    rewrite sanitized_header_section, <- app_assoc. eexists. eexists.
    reflexivity.
  - rewrite (requestSections_missing t E). unfold santizedTrace.
    rewrite sanitized_header_section, <- app_assoc. eexists. eexists.
    reflexivity.
Qed.

(** The sanitized request always holds a blank line, also when the dump
    had none or when its header section had to be repaired. *)
Theorem SanitizedRequest_has_blank_line (t : Trace) (placeholder : bytes) :
  bytes_.Contains (SanitizedRequest t placeholder) CRLFCRLF = true.
Proof.
  destruct (SanitizedRequest_shape t placeholder) as (x & y & ->).
  apply Contains_occurs. exists x, y. reflexivity.
Qed.

(** A request dump without a blank line is sanitized as a header section
    to which the blank line is added: there is no body, and the
    placeholder is not used whatever bytes the dump holds. *)
Theorem SanitizedRequest_without_blank_line (t : Trace)
    (placeholder : bytes) :
  bytes_.Contains (RequestTrace t) CRLFCRLF = false ->
  SanitizedRequest t placeholder
  = replaceNullChars (bytes_.ToValidUTF8 (RequestTrace t) replacementChar)
    ++ CRLFCRLF.
Proof.
  intros Hno.
  assert (E : bytes_.cutAtFirst (RequestTrace t) CRLFCRLF = None).
  { destruct (bytes_.cutAtFirst (RequestTrace t) CRLFCRLF) eqn:E;
      [|reflexivity].
    assert (C : bytes_.Contains (RequestTrace t) CRLFCRLF = true)
      by (apply cutAtFirst_Contains; congruence).
    congruence. }
  unfold SanitizedRequest. rewrite (requestSections_missing t E).
  unfold santizedTrace. rewrite sanitized_header_section.
  cbn [utf8.Valid]. unfold replaceNullChars at 2.
  cbn [bytes_.ReplaceAll1]. rewrite <- app_assoc. reflexivity.
Qed.

Lemma SanitizedRequest_without_blank_line_witness :
  SanitizedRequest (traceOf pngBody [] []) (lit "[binary]")
  = replacementChar ++ [x50; x4e; x47; x0d; x0a; x1a; x0a] ++ CRLFCRLF.
Proof.
  rewrite (SanitizedRequest_without_blank_line (traceOf pngBody [] [])
             (lit "[binary]") (eq_refl _)).
  reflexivity.
Defined.

(** Sanitizing is idempotent: a sanitized response put back as the header
    dump of a trace without a body is returned as it is, whenever the
    first pass gave clean text (the body valid UTF-8, or the placeholder
    valid UTF-8 without null bytes). *)
Theorem SanitizedResponse_idempotent (t t' : Trace)
    (placeholder placeholder' : bytes) :
  utf8.Valid (ResponseBody t) = true
  \/ (utf8.Valid placeholder = true /\ nullFreeb placeholder = true) ->
  ResponseTrace t' = SanitizedResponse t placeholder ->
  ResponseBody t' = [] ->
  SanitizedResponse t' placeholder' = SanitizedResponse t placeholder.
Proof.
  intros Hclean Ht Hb. unfold SanitizedResponse at 1. rewrite Ht, Hb.
  destruct (santizedTrace_safe (ResponseTrace t) (ResponseBody t) placeholder
              Hclean) as [Hv Hn].
  unfold SanitizedResponse in *.
  rewrite santizedTrace_clean by (try assumption; reflexivity).
  apply app_nil_r.
Qed.

Lemma SanitizedResponse_idempotent_witness :
  SanitizedResponse
    (traceOf postDump
       (SanitizedResponse (traceOf postDump [xff; x00] pngBody)
          (lit "[binary]"))
       [])
    (lit "...")
  = SanitizedResponse (traceOf postDump [xff; x00] pngBody) (lit "[binary]").
Proof.
  apply (SanitizedResponse_idempotent
           (traceOf postDump [xff; x00] pngBody)
           (traceOf postDump
              (SanitizedResponse (traceOf postDump [xff; x00] pngBody)
                 (lit "[binary]"))
              [])
           (lit "[binary]") (lit "...")).
  - right. split; reflexivity.
  - reflexivity.
  - reflexivity.
Defined.

(** ** Basic authentication *)

Lemma uint_range (b : byte) : 0 <= base64.uint b < 256.
Proof. unfold base64.uint. pose proof (to_N_bounded b). lia. Qed.

Lemma byteOf_uint (b : byte) : base64.byteOf (base64.uint b) = b.
Proof.
  unfold base64.byteOf, base64.uint. rewrite N2Z.id, of_to_N. reflexivity.
Qed.

(** An or with bits below the shift is a sum. *)
Lemma lor_shiftl_low (a b k : Z) :
  0 <= k -> 0 <= b < 2 ^ k -> Z.lor (Z.shiftl a k) b = a * 2 ^ k + b.
Proof.
  intros Hk Hb. rewrite <- Z.shiftl_mul_pow2 by assumption.
  rewrite <- Z.add_lor_land.
  assert (Z.land (Z.shiftl a k) b = 0) as ->; [|lia].
  apply Z.bits_inj'. intros n Hn. rewrite Z.land_spec, Z.bits_0.
  destruct (Z.lt_ge_cases n k).
  - rewrite Z.shiftl_spec_low by assumption. reflexivity.
  - destruct (Z.eq_dec b 0) as [->|Hne].
    + rewrite Z.bits_0. apply andb_false_r.
    + rewrite (Z.bits_above_log2 b n); [apply andb_false_r | lia |].
      assert (Z.log2 b < k) by (apply Z.log2_lt_pow2; lia). lia.
Qed.

Lemma val_two (a b : byte) :
  Z.lor (Z.shiftl (base64.uint a) 16) (Z.shiftl (base64.uint b) 8)
  = base64.uint a * 65536 + base64.uint b * 256.
Proof.
  pose proof (uint_range a). pose proof (uint_range b).
  rewrite (Z.shiftl_mul_pow2 (base64.uint b) 8) by lia.
  rewrite lor_shiftl_low by lia. lia.
Qed.

Lemma val_three (a b c : byte) :
  Z.lor (Z.lor (Z.shiftl (base64.uint a) 16) (Z.shiftl (base64.uint b) 8))
    (base64.uint c)
  = base64.uint a * 65536 + base64.uint b * 256 + base64.uint c.
Proof.
  pose proof (uint_range a). pose proof (uint_range b).
  pose proof (uint_range c).
  rewrite val_two.
  replace (base64.uint a * 65536 + base64.uint b * 256)
    with (Z.shiftl (base64.uint a * 256 + base64.uint b) 8)
    by (rewrite Z.shiftl_mul_pow2; lia).
  rewrite lor_shiftl_low by lia. rewrite Z.shiftl_mul_pow2 by lia. lia.
Qed.

Lemma sextet (v k : Z) :
  0 <= k -> Z.land (Z.shiftr v k) 0x3F = (v / 2 ^ k) mod 64.
Proof.
  intros Hk. rewrite Z.shiftr_div_pow2 by assumption.
  change 0x3F with (Z.ones 6). rewrite Z.land_ones by lia. reflexivity.
Qed.

Lemma sextet_low (v : Z) : Z.land v 0x3F = (v / 2 ^ 0) mod 64.
Proof. rewrite <- sextet by lia. rewrite Z.shiftr_0_r. reflexivity. Qed.

Lemma alphabet_checked :
  forallb (fun n =>
             (base64.indexOf (base64.encode (Z.of_nat n)) base64.encodeStd
              =? Z.of_nat n)
             && negb (Byte.eqb (base64.encode (Z.of_nat n))
                        base64.StdPadding))
    (seq 0 64) = true.
Proof. vm_compute. reflexivity. Qed.

(** The 64 characters of the alphabet are distinct, and none of them is
    the padding character. *)
Lemma encode_index (i : Z) :
  0 <= i < 64 ->
  base64.indexOf (base64.encode i) base64.encodeStd = i
  /\ Byte.eqb (base64.encode i) base64.StdPadding = false.
Proof.
  intros Hi. pose proof alphabet_checked as A. rewrite forallb_forall in A.
  specialize (A (Z.to_nat i)). rewrite Z2Nat.id in A by lia.
  assert (In (Z.to_nat i) (seq 0 64)) as I by (apply in_seq; lia).
  apply A in I. apply andb_true_iff in I. destruct I as [I1 I2].
  apply Z.eqb_eq in I1. apply negb_true_iff in I2. split; assumption.
Qed.

Lemma sextet_range (v k : Z) : 0 <= (v / 2 ^ k) mod 64 < 64.
Proof. apply Z.mod_pos_bound. lia. Qed.

Lemma readBack_three (a b c : byte) (r : bytes) :
  base64.readBack (base64.Encode (a :: b :: c :: r))
  = a :: b :: c :: base64.readBack (base64.Encode r).
Proof.
  pose proof (uint_range a). pose proof (uint_range b).
  pose proof (uint_range c).
  cbn [base64.Encode]. rewrite val_three, !sextet, sextet_low by lia.
  set (v := base64.uint a * 65536 + base64.uint b * 256 + base64.uint c).
  destruct (encode_index _ (sextet_range v 18)) as [I0 _].
  destruct (encode_index _ (sextet_range v 12)) as [I1 _].
  destruct (encode_index _ (sextet_range v 6)) as [I2 P2].
  destruct (encode_index _ (sextet_range v 0)) as [I3 P3].
  cbn [base64.readBack]. rewrite P2, P3, I0, I1, I2, I3.
  assert (E0 : v / 2 ^ 18 mod 64 * 4 + v / 2 ^ 12 mod 64 / 16
               = base64.uint a).
  { subst v. change (2 ^ 18) with 262144. change (2 ^ 12) with 4096.
    Z.div_mod_to_equations. lia. }
  assert (E1 : v / 2 ^ 12 mod 64 mod 16 * 16 + v / 2 ^ 6 mod 64 / 4
               = base64.uint b).
  { subst v. change (2 ^ 6) with 64. change (2 ^ 12) with 4096.
    Z.div_mod_to_equations. lia. }
  assert (E2 : v / 2 ^ 6 mod 64 mod 4 * 64 + v / 2 ^ 0 mod 64
               = base64.uint c).
  { subst v. change (2 ^ 6) with 64. change (2 ^ 0) with 1.
    Z.div_mod_to_equations. lia. }
  rewrite E0, E1, E2, !byteOf_uint. reflexivity.
Qed.

Lemma readBack_two (a b : byte) :
  base64.readBack (base64.Encode [a; b]) = [a; b].
Proof.
  pose proof (uint_range a). pose proof (uint_range b).
  cbn [base64.Encode]. rewrite val_two, !sextet by lia.
  set (v := base64.uint a * 65536 + base64.uint b * 256).
  destruct (encode_index _ (sextet_range v 18)) as [I0 _].
  destruct (encode_index _ (sextet_range v 12)) as [I1 _].
  destruct (encode_index _ (sextet_range v 6)) as [I2 P2].
  cbn [base64.readBack]. rewrite P2, I0, I1, I2.
  change (Byte.eqb base64.StdPadding base64.StdPadding) with true.
  cbv iota.
  assert (E0 : v / 2 ^ 18 mod 64 * 4 + v / 2 ^ 12 mod 64 / 16
               = base64.uint a).
  { subst v. change (2 ^ 18) with 262144. change (2 ^ 12) with 4096.
    Z.div_mod_to_equations. lia. }
  assert (E1 : v / 2 ^ 12 mod 64 mod 16 * 16 + v / 2 ^ 6 mod 64 / 4
               = base64.uint b).
  { subst v. change (2 ^ 6) with 64. change (2 ^ 12) with 4096.
    Z.div_mod_to_equations. lia. }
  rewrite E0, E1, !byteOf_uint. reflexivity.
Qed.

Lemma readBack_one (a : byte) : base64.readBack (base64.Encode [a]) = [a].
Proof.
  pose proof (uint_range a).
  cbn [base64.Encode]. rewrite Z.shiftl_mul_pow2, !sextet by lia.
  set (v := base64.uint a * 2 ^ 16).
  destruct (encode_index _ (sextet_range v 18)) as [I0 _].
  destruct (encode_index _ (sextet_range v 12)) as [I1 _].
  cbn [base64.readBack]. rewrite I0, I1.
  change (Byte.eqb base64.StdPadding base64.StdPadding) with true.
  cbv iota.
  assert (E0 : v / 2 ^ 18 mod 64 * 4 + v / 2 ^ 12 mod 64 / 16
               = base64.uint a).
  { subst v. change (2 ^ 18) with 262144. change (2 ^ 12) with 4096.
    change (2 ^ 16) with 65536. Z.div_mod_to_equations. lia. }
  rewrite E0, byteOf_uint. reflexivity.
Qed.

(** Lists, three elements at a time. *)
Lemma list_ind3 (A : Type) (P : list A -> Prop) :
  P [] -> (forall a, P [a]) -> (forall a b, P [a; b]) ->
  (forall a b c r, P r -> P (a :: b :: c :: r)) ->
  forall l, P l.
Proof.
  intros H0 H1 H2 H3.
  fix IH 1. intros [|a [|b [|c r]]];
    [exact H0 | apply H1 | apply H2 | apply H3, IH].
Qed.

(** What was encoded is read back. *)
Lemma readBack_Encode (src : bytes) :
  base64.readBack (base64.Encode src) = src.
Proof.
  induction src as [|a|a b|a b c r IH] using list_ind3.
  - reflexivity.
  - apply readBack_one.
  - apply readBack_two.
  - rewrite readBack_three, IH. reflexivity.
Qed.

Lemma Encode_length (src : bytes) :
  List.length (base64.Encode src) = (4 * ((List.length src + 2) / 3))%nat.
Proof.
  induction src as [|a|a b|a b c r IH] using list_ind3;
    [reflexivity | reflexivity | reflexivity |].
  cbn [base64.Encode List.length]. rewrite IH.
  replace (S (S (S (List.length r))) + 2)%nat
    with (1 * 3 + (List.length r + 2))%nat by lia.
  rewrite Nat.div_add_l by lia. lia.
Qed.

Lemma encode_in_alphabet (i : Z) :
  0 <= i < 64 -> In (base64.encode i) base64.encodeStd.
Proof.
  intros Hi. unfold base64.encode. apply nth_In.
  change (List.length base64.encodeStd) with 64%nat. lia.
Qed.

Lemma Encode_alphabet (src : bytes) :
  Forall (fun c => In c base64.encodeStd \/ c = base64.StdPadding)
    (base64.Encode src).
Proof.
  assert (A : forall v k,
             In (base64.encode ((v / 2 ^ k) mod 64)) base64.encodeStd
             \/ base64.encode ((v / 2 ^ k) mod 64) = base64.StdPadding)
    by (intros v k; left; apply encode_in_alphabet, sextet_range).
  assert (B : In base64.StdPadding base64.encodeStd
              \/ base64.StdPadding = base64.StdPadding)
    by (right; reflexivity).
  induction src as [|a|a b|a b c r IH] using list_ind3.
  - apply Forall_nil.
  - cbn [base64.Encode]. rewrite !sextet by lia.
    apply Forall_cons; [apply A|]. apply Forall_cons; [apply A|].
    apply Forall_cons; [exact B|]. apply Forall_cons; [exact B|].
    apply Forall_nil.
  - cbn [base64.Encode]. rewrite !sextet by lia.
    apply Forall_cons; [apply A|]. apply Forall_cons; [apply A|].
    apply Forall_cons; [apply A|]. apply Forall_cons; [exact B|].
    apply Forall_nil.
  - cbn [base64.Encode]. rewrite !sextet, sextet_low by lia.
    apply Forall_cons; [apply A|]. apply Forall_cons; [apply A|].
    apply Forall_cons; [apply A|]. apply Forall_cons; [apply A|].
    exact IH.
Qed.

(** Two strings joined by a colon come apart in one way when the first
    holds no colon. *)
Lemma colon_split (u u' p p' : bytes) :
  hasColon u = false -> hasColon u' = false ->
  u ++ lit ":" ++ p = u' ++ lit ":" ++ p' ->
  u = u' /\ p = p'.
Proof.
  revert u'. induction u as [|c u IH]; intros u' Hu Hu' E.
  - destruct u' as [|c' u'].
    + cbn in E. injection E as ->. split; reflexivity.
    + cbn in E. injection E as <- _. cbn in Hu'. discriminate.
  - destruct u' as [|c' u'].
    + cbn in E. injection E as -> _. cbn in Hu. discriminate.
    + cbn [app] in E. injection E as -> E.
      cbn [hasColon existsb] in Hu, Hu'.
      apply orb_false_iff in Hu. apply orb_false_iff in Hu'.
      destruct (IH u' (proj2 Hu) (proj2 Hu') E) as [-> ->].
      split; reflexivity.
Qed.

(** [BasicAuth] keeps credentials apart: with user names that hold no
    colon, two pairs of user name and password that give the same token
    are the same pair. *)
Theorem BasicAuth_injective (username password username' password' : bytes) :
  hasColon username = false ->
  hasColon username' = false ->
  BasicAuth username password = BasicAuth username' password' ->
  username = username' /\ password = password'.
Proof.
  intros Hu Hu' E. unfold BasicAuth, base64.EncodeToString in E.
  apply (f_equal base64.readBack) in E. rewrite !readBack_Encode in E.
  apply (colon_split _ _ _ _ Hu Hu' E).
Qed.

Lemma BasicAuth_injective_witness :
  lit "Aladdin" = lit "Aladdin" /\ lit "open sesame" = lit "open sesame".
Proof.
  apply (BasicAuth_injective (lit "Aladdin") (lit "open sesame")
           (lit "Aladdin") (lit "open sesame"));
    reflexivity.
Defined.

(** [BasicAuth] does not refuse a colon in the user name, and then the
    token no longer tells where the user name ends: moving what follows
    the colon into the password gives the same token. *)
Theorem BasicAuth_colon_in_username (username rest password : bytes) :
  BasicAuth (username ++ lit ":" ++ rest) password
  = BasicAuth username (rest ++ lit ":" ++ password).
Proof. unfold BasicAuth. rewrite <- !app_assoc. reflexivity. Qed.

(** The token of [BasicAuth] is padded base64: four characters for every
    three bytes of [username:password], rounded up, each of them from the
    alphabet or the padding character. *)
Theorem BasicAuth_token_shape (username password : bytes) :
  List.length (BasicAuth username password)
  = (4 * ((List.length username + List.length password + 3) / 3))%nat
  /\ Forall (fun c => In c base64.encodeStd \/ c = base64.StdPadding)
       (BasicAuth username password).
Proof.
  unfold BasicAuth, base64.EncodeToString. split.
  - rewrite Encode_length, !length_app.
    change (List.length (lit ":")) with 1%nat.
    f_equal. f_equal. lia.
  - apply Encode_alphabet.
Qed.

Example BasicAuth_Aladdin :
  BasicAuth (lit "Aladdin") (lit "open sesame")
  = lit "QWxhZGRpbjpvcGVuIHNlc2FtZQ==".
Proof. reflexivity. Qed.

(** ** More properties at sample calls *)

Lemma do_attempts_in_order_witness :
  exists response retry err w',
    do flaky tt hookRequest (Some twice) None initial
    = (Returned (response, retry, err), w')
    /\ 0 <= retry
    /\ events w' = events initial ++ schedule twice 0 0 (Z.to_nat retry).
Proof.
  apply (do_attempts_in_order unit flaky tt hookRequest twice None initial).
  - unfold MaxInt64. cbn. lia.
  - reflexivity.
Defined.


Lemma do_retries_when_told_witness :
  exists response retry err w',
    do busy tt hookRequest (Some twice) None initial
    = (Returned (response, retry, err), w')
    /\ (forall k,
           0 <= k < retry ->
           k < MaxRetries twice
           /\ ShouldRetry twice hookRequest
                (fst (busy (invocations initial + Z.to_nat k) tt hookRequest))
                (Backoff twice k) = true)
    /\ (MaxRetries twice <= retry
        \/ ShouldRetry twice hookRequest response (Backoff twice retry)
           = false).
Proof.
  apply (do_retries_when_told unit busy tt hookRequest twice None initial).
  - unfold MaxInt64. cbn. lia.
  - reflexivity.
Defined.

Lemma do_exhausts_retries_witness :
  exists response err w',
    do refusesAll tt hookRequest (Some (stubborn 3)) None initial
    = (Returned (response, MaxRetries (stubborn 3), err), w')
    /\ dispatches initial w' = MaxRetries (stubborn 3) + 1.
Proof.
  apply (do_exhausts_retries unit refusesAll tt hookRequest (stubborn 3) None
           initial).
  - unfold MaxInt64. cbn. lia.
  - reflexivity.
  - reflexivity.
Defined.

Lemma do_single_attempt_witness :
  do refusesAll tt hookRequest (Some never) None initial
  = (Returned (None, 0, Some "connection refused"%string),
     {| invocations := 1; clockReads := 0; events := [Dispatched 0] |})
  /\ do refusesAll tt hookRequest None (Some allowAll) initial
     = (Returned (None, 0, Some "connection refused"%string),
        {| invocations := 1; clockReads := 0; events := [Dispatched 0] |}).
Proof.
  split.
  - apply (do_single_attempt unit refusesAll tt hookRequest (Some never) None
             initial (eq_refl _)).
    cbn. lia.
  - apply (do_single_attempt unit refusesAll tt hookRequest None
             (Some allowAll) initial (eq_refl _) I).
Defined.

Lemma DoTrace_body_within_limit_witness :
  Z.of_nat (List.length (ResponseBody tenByteTrace)) <= 10.
Proof.
  assert (R : 0 < 10 <= MaxInt64) by (unfold MaxInt64; lia).
  apply (DoTrace_body_within_limit unit (serves (responseOf 200 7 tenBytes))
           dumpsRequest dumpsHeaders ticking tt hookRequest None None 10
           initial tenByteTrace None R (eq_refl _)).
Defined.

Lemma DoTrace_success_is_complete_witness :
  exists r,
    Response_ tenByteTrace = Some r
    /\ dumpsHeaders r = inl (ResponseTrace tenByteTrace)
    /\ ResponseBody tenByteTrace = content (Body r)
    /\ failure (Body r) = None
    /\ dumpsRequest hookRequest = inl (RequestTrace tenByteTrace).
Proof.
  apply (DoTrace_success_is_complete unit
           (serves (responseOf 200 7 tenBytes)) dumpsRequest dumpsHeaders
           ticking tt hookRequest None None 10 initial tenByteTrace
           (eq_refl _)).
Defined.

Lemma DoTrace_error_keeps_no_body_witness :
  ResponseBody brokenTrace = []
  /\ (Response_ brokenTrace = None -> ResponseTrace brokenTrace = []).
Proof.
  apply (DoTrace_error_keeps_no_body unit
           (serves (brokenResponse 7 tenBytes)) dumpsRequest dumpsHeaders
           ticking tt hookRequest None None 0 initial brokenTrace
           "unexpected EOF"%string (eq_refl _)).
Defined.

Lemma DoTrace_reads_clock_twice_witness :
  StartTime tenByteTrace = ticking (clockReads initial)
  /\ EndTime tenByteTrace = ticking (S (clockReads initial))
  /\ clockReads
       (snd (DoTrace flaky dumpsRequest dumpsHeaders ticking tt hookRequest
               (Some twice) None 10 initial))
     = S (S (clockReads initial)).
Proof.
  split; [|split].
  - apply (DoTrace_reads_clock_twice unit
             (serves (responseOf 200 7 tenBytes)) dumpsRequest dumpsHeaders
             ticking tt hookRequest None None 10 initial tenByteTrace None
             (eq_refl _)).
  - apply (DoTrace_reads_clock_twice unit
             (serves (responseOf 200 7 tenBytes)) dumpsRequest dumpsHeaders
             ticking tt hookRequest None None 10 initial tenByteTrace None
             (eq_refl _)).
  - apply (DoTrace_reads_clock_twice unit flaky dumpsRequest dumpsHeaders
             ticking tt hookRequest (Some twice) None 10 initial
             (Build_Trace hookRequest postDump
                (Some (responseOf 200 2 (lit "ok"))) okHeaders (lit "ok")
                1000 1001 2)
             None (eq_refl _)).
Defined.

End httpx.

(** * Facts about package [urns] *)
Module urnsFacts.

Import urns.

Lemma byte_eqb_sym (a b : byte) : Byte.eqb a b = Byte.eqb b a.
Proof.
  destruct (Byte.eqb a b) eqn:E; destruct (Byte.eqb b a) eqn:E';
    try reflexivity.
  - apply byte_dec_bl in E. subst. rewrite (byte_dec_lb (eq_refl b)) in E'.
    discriminate.
  - apply byte_dec_bl in E'. subst. rewrite (byte_dec_lb (eq_refl a)) in E.
    discriminate.
Qed.

Lemma Contains_single (c : byte) (s : bytes) :
  bytes_.Contains s [c] = strings_.hasByte c s.
Proof.
  induction s as [|x s IH]; [reflexivity|].
  cbn [bytes_.Contains bytes_.HasPrefix strings_.hasByte existsb].
  rewrite IH, andb_true_r, byte_eqb_sym. reflexivity.
Qed.

(** A string is split at the first instance of a one-byte separator. *)
Lemma SplitByte_found (c : byte) (h r : bytes) :
  strings_.hasByte c h = false ->
  bytes_.SplitN2 (h ++ [c] ++ r) [c] = [h; r].
Proof.
  intros H. unfold bytes_.SplitN2.
  pose proof (httpx.cutAtFirst_at [] c h r) as E.
  rewrite app_nil_r in E. cbn [app] in E |- *.
  rewrite E; [reflexivity|]. rewrite Contains_single. exact H.
Qed.

Lemma SplitByte_missing (c : byte) (s : bytes) :
  strings_.hasByte c s = false -> bytes_.SplitN2 s [c] = [s].
Proof.
  intros H. unfold bytes_.SplitN2.
  destruct (bytes_.cutAtFirst s [c]) as [[h r]|] eqn:E; [|reflexivity].
  assert (C : bytes_.Contains s [c] = true)
    by (apply httpx.cutAtFirst_Contains; congruence).
  rewrite Contains_single in C. congruence.
Qed.

Lemma hasByte_app (c : byte) (a b : bytes) :
  strings_.hasByte c (a ++ b) = strings_.hasByte c a || strings_.hasByte c b.
Proof. apply existsb_app. Qed.

(** A string that holds a byte, cut at its first instance. *)
Lemma hasByte_cut (c : byte) (s : bytes) :
  strings_.hasByte c s = true ->
  exists h r, s = h ++ [c] ++ r /\ strings_.hasByte c h = false.
Proof.
  induction s as [|x s IH]; [discriminate|].
  cbn [strings_.hasByte existsb]. destruct (Byte.eqb c x) eqn:E.
  - intros _. apply byte_dec_bl in E. subst x. exists [], s.
    split; reflexivity.
  - cbn [orb]. intros H. destruct (IH H) as (h & r & -> & Hh).
    exists (x :: h), r. split; [reflexivity|].
    cbn [strings_.hasByte existsb]. rewrite E. exact Hh.
Qed.

Lemma Scheme_cut (s r : bytes) :
  strings_.hasByte ":"%byte s = false -> Scheme (s ++ lit ":" ++ r) = s.
Proof.
  intros H. unfold Scheme. change (lit ":") with [":"%byte].
  rewrite (SplitByte_found _ s r H). reflexivity.
Qed.

Lemma Path_cut (s p d : bytes) :
  strings_.hasByte ":"%byte s = false ->
  strings_.hasByte "#"%byte p = false ->
  Path (s ++ lit ":" ++ p ++ lit "#" ++ d) = p
  /\ Display (s ++ lit ":" ++ p ++ lit "#" ++ d) = d.
Proof.
  intros Hs Hp. unfold Path, Display.
  change (lit ":") with [":"%byte]. change (lit "#") with ["#"%byte].
  rewrite (SplitByte_found _ s _ Hs). cbn [List.length Nat.eqb nth].
  rewrite (SplitByte_found _ p d Hp). split; reflexivity.
Qed.

Lemma Path_whole (s p : bytes) :
  strings_.hasByte ":"%byte s = false ->
  strings_.hasByte "#"%byte p = false ->
  Path (s ++ lit ":" ++ p) = p /\ Display (s ++ lit ":" ++ p) = [].
Proof.
  intros Hs Hp. unfold Path, Display.
  change (lit ":") with [":"%byte]. change (lit "#") with ["#"%byte].
  rewrite (SplitByte_found _ s _ Hs). cbn [List.length Nat.eqb nth].
  rewrite (SplitByte_missing _ p Hp). split; reflexivity.
Qed.

(** A URN is read at its first colon and at the first hash after it:
    with a scheme that holds no colon and a path that holds no hash,
    [scheme:path#display] and [scheme:path] give back their parts,
    whatever the display and whether or not the path holds colons. *)
Theorem URN_parts (scheme path display : bytes) :
  strings_.hasByte ":"%byte scheme = false ->
  strings_.hasByte "#"%byte path = false ->
  (Scheme (scheme ++ lit ":" ++ path ++ lit "#" ++ display) = scheme
   /\ Path (scheme ++ lit ":" ++ path ++ lit "#" ++ display) = path
   /\ Display (scheme ++ lit ":" ++ path ++ lit "#" ++ display) = display)
  /\ (Scheme (scheme ++ lit ":" ++ path) = scheme
      /\ Path (scheme ++ lit ":" ++ path) = path
      /\ Display (scheme ++ lit ":" ++ path) = []).
Proof.
  intros Hs Hp. split.
  - split; [apply Scheme_cut, Hs | apply Path_cut; assumption].
  - split; [apply Scheme_cut, Hs | apply Path_whole; assumption].
Qed.

Lemma URN_parts_witness :
  (Scheme (lit "tel" ++ lit ":" ++ lit "+250788383383" ++ lit "#"
           ++ lit "bob#1") = lit "tel"
   /\ Path (lit "tel" ++ lit ":" ++ lit "+250788383383" ++ lit "#"
            ++ lit "bob#1") = lit "+250788383383"
   /\ Display (lit "tel" ++ lit ":" ++ lit "+250788383383" ++ lit "#"
               ++ lit "bob#1") = lit "bob#1")
  /\ (Scheme (lit "tel" ++ lit ":" ++ lit "+250788383383") = lit "tel"
      /\ Path (lit "tel" ++ lit ":" ++ lit "+250788383383")
         = lit "+250788383383"
      /\ Display (lit "tel" ++ lit ":" ++ lit "+250788383383") = []).
Proof.
  apply (URN_parts (lit "tel") (lit "+250788383383") (lit "bob#1"));
    reflexivity.
Defined.

(** A string without a colon has no scheme and no display and is its own
    path, a hash in it included, which [Identity] still cuts off. *)
Theorem URN_without_colon (u : URN) :
  strings_.hasByte ":"%byte u = false ->
  Scheme u = [] /\ Path u = u /\ Display u = [].
Proof.
  intros H. unfold Scheme, Path, Display. change (lit ":") with [":"%byte].
  rewrite (SplitByte_missing _ u H). repeat split.
Qed.

Lemma URN_without_colon_witness :
  Scheme (lit "bob#1") = [] /\ Path (lit "bob#1") = lit "bob#1"
  /\ Display (lit "bob#1") = [].
Proof. apply (URN_without_colon (lit "bob#1")). reflexivity. Defined.

(** What the parts never hold: the identity no hash, the scheme no colon,
    and the path of a URN with a colon no hash. *)
Theorem URN_parts_hold_no_separator (u : URN) :
  strings_.hasByte "#"%byte (Identity u) = false
  /\ strings_.hasByte ":"%byte (Scheme u) = false
  /\ (strings_.hasByte ":"%byte u = true ->
      strings_.hasByte "#"%byte (Path u) = false).
Proof.
  split; [|split].
  - unfold Identity. change (lit "#") with ["#"%byte].
    destruct (strings_.hasByte "#"%byte u) eqn:H.
    + destruct (hasByte_cut _ _ H) as (h & r & -> & Hh).
      rewrite (SplitByte_found _ h r Hh). exact Hh.
    + rewrite (SplitByte_missing _ u H). exact H.
  - unfold Scheme. change (lit ":") with [":"%byte].
    destruct (strings_.hasByte ":"%byte u) eqn:H.
    + destruct (hasByte_cut _ _ H) as (h & r & -> & Hh).
      rewrite (SplitByte_found _ h r Hh). exact Hh.
    + rewrite (SplitByte_missing _ u H). reflexivity.
  - intros H. destruct (hasByte_cut _ _ H) as (s & r & -> & Hs).
    unfold Path. change (lit ":") with [":"%byte].
    change (lit "#") with ["#"%byte].
    rewrite (SplitByte_found _ s r Hs). cbn [List.length Nat.eqb nth].
    destruct (strings_.hasByte "#"%byte r) eqn:Hr.
    + destruct (hasByte_cut _ _ Hr) as (p & d & -> & Hp).
      rewrite (SplitByte_found _ p d Hp). exact Hp.
    + rewrite (SplitByte_missing _ r Hr). exact Hr.
Qed.

Lemma URN_parts_hold_no_separator_witness :
  strings_.hasByte "#"%byte (Path (lit "tel:12#34#56")) = false.
Proof.
  apply (URN_parts_hold_no_separator (lit "tel:12#34#56")). reflexivity.
Defined.

(** The identity of a URN is its scheme, a colon and its path, when no
    hash comes before the first colon. *)
Theorem Identity_is_scheme_and_path (u : URN) :
  strings_.hasByte ":"%byte u = true ->
  strings_.hasByte "#"%byte (Scheme u) = false ->
  Identity u = Scheme u ++ lit ":" ++ Path u.
Proof.
  intros H. destruct (hasByte_cut _ _ H) as (s & r & -> & Hs).
  change [":"%byte] with (lit ":"). rewrite (Scheme_cut s r Hs). intros Hh.
  destruct (strings_.hasByte "#"%byte r) eqn:Hr.
  - destruct (hasByte_cut _ _ Hr) as (p & d & -> & Hp).
    change ["#"%byte] with (lit "#").
    rewrite (proj1 (Path_cut s p d Hs Hp)).
    unfold Identity. change (lit "#") with ["#"%byte].
    replace (s ++ lit ":" ++ p ++ ["#"%byte] ++ d)
      with ((s ++ lit ":" ++ p) ++ ["#"%byte] ++ d)
      by (rewrite <- !app_assoc; reflexivity).
    rewrite SplitByte_found; [reflexivity|].
    rewrite !hasByte_app, Hh, Hp. reflexivity.
  - rewrite (proj1 (Path_whole s r Hs Hr)).
    unfold Identity. change (lit "#") with ["#"%byte].
    rewrite SplitByte_missing; [reflexivity|].
    rewrite !hasByte_app, Hh, Hr. reflexivity.
Qed.

Lemma Identity_is_scheme_and_path_witness :
  Identity (lit "tel:+250788383383#bob")
  = Scheme (lit "tel:+250788383383#bob") ++ lit ":"
    ++ Path (lit "tel:+250788383383#bob").
Proof.
  apply (Identity_is_scheme_and_path (lit "tel:+250788383383#bob"));
    reflexivity.
Defined.

Lemma strings_eqb_nil (d : bytes) :
  strings_.eqb d [] = true <-> d = [].
Proof. destruct d; cbn; split; congruence. Qed.

Lemma strings_eqb_eq (a b : bytes) : strings_.eqb a b = true <-> a = b.
Proof.
  revert b. induction a as [|x a IH]; intros [|y b]; cbn [strings_.eqb];
    try (split; congruence).
  rewrite andb_true_iff, IH. split.
  - intros [E ->]. apply byte_dec_bl in E. subst. reflexivity.
  - intros [= -> ->]. split; [apply byte_dec_lb|]; reflexivity.
Qed.

Lemma forallb_rev (A : Type) (f : A -> bool) (l : list A) :
  forallb f (rev l) = forallb f l.
Proof.
  induction l as [|x l IH]; [reflexivity|].
  cbn [rev forallb]. rewrite forallb_app, IH. cbn [forallb].
  rewrite andb_true_r. apply andb_comm.
Qed.

Lemma forallb_hasByte (f : byte -> bool) (c : byte) (s : bytes) :
  forallb f s = true -> f c = false -> strings_.hasByte c s = false.
Proof.
  intros Hs Hc. induction s as [|x s IH]; [reflexivity|].
  cbn [forallb] in Hs. apply andb_true_iff in Hs. destruct Hs as [Hx Hs].
  cbn [strings_.hasByte existsb].
  destruct (Byte.eqb c x) eqn:E.
  - apply byte_dec_bl in E. subst x. congruence.
  - apply IH, Hs.
Qed.

Lemma string_of_uint_chars (d : Decimal.uint) :
  forallb decimalChar (lit (NilEmpty.string_of_uint d)) = true.
Proof. induction d; cbn; try assumption; reflexivity. Qed.

Lemma FormatInt_chars (z : Z) : forallb decimalChar (FormatInt z) = true.
Proof.
  unfold FormatInt, NilZero.string_of_int, NilZero.string_of_uint.
  destruct (Z.to_int z) as [d|d]; destruct d;
    try reflexivity;
    try apply (string_of_uint_chars (Decimal.D0 _));
    try apply (string_of_uint_chars (Decimal.D1 _));
    try apply (string_of_uint_chars (Decimal.D2 _));
    try apply (string_of_uint_chars (Decimal.D3 _));
    try apply (string_of_uint_chars (Decimal.D4 _));
    try apply (string_of_uint_chars (Decimal.D5 _));
    try apply (string_of_uint_chars (Decimal.D6 _));
    try apply (string_of_uint_chars (Decimal.D7 _));
    try apply (string_of_uint_chars (Decimal.D8 _));
    try apply (string_of_uint_chars (Decimal.D9 _));
    cbn [lit list_byte_of_string forallb];
    rewrite ?andb_true_iff; (split; [reflexivity|]);
    first [ apply (string_of_uint_chars (Decimal.D0 _))
          | apply (string_of_uint_chars (Decimal.D1 _))
          | apply (string_of_uint_chars (Decimal.D2 _))
          | apply (string_of_uint_chars (Decimal.D3 _))
          | apply (string_of_uint_chars (Decimal.D4 _))
          | apply (string_of_uint_chars (Decimal.D5 _))
          | apply (string_of_uint_chars (Decimal.D6 _))
          | apply (string_of_uint_chars (Decimal.D7 _))
          | apply (string_of_uint_chars (Decimal.D8 _))
          | apply (string_of_uint_chars (Decimal.D9 _)) ].
Qed.

Lemma readInt_FormatInt (z : Z) : readInt (FormatInt z) = Some z.
Proof.
  unfold readInt, FormatInt, lit. rewrite string_of_list_byte_of_string.
  pose proof (DecimalZ.of_to z) as E.
  destruct (Z.to_int z) as [d|d] eqn:T.
  - destruct d; try (rewrite NilZero.isi by discriminate; cbn [option_map];
                     rewrite E; reflexivity).
    rewrite NilZero.isi_posnil. cbn [option_map]. rewrite <- E. reflexivity.
  - destruct d; try (rewrite NilZero.isi by discriminate; cbn [option_map];
                     rewrite E; reflexivity).
    rewrite NilZero.isi_negnil. cbn [option_map]. rewrite <- E. reflexivity.
Qed.

Lemma validSchemes_checked :
  forallb (fun kv =>
             negb (strings_.hasByte ":"%byte (fst kv))
             && negb (strings_.hasByte "#"%byte (fst kv))
             && snd kv)
    validSchemes = true.
Proof. reflexivity. Qed.

(** [validSchemes[key]] is true exactly for the ten schemes. *)
Lemma lookup_validSchemes (key : bytes) :
  lookup key validSchemes = true <-> In key (map fst validSchemes).
Proof.
  unfold lookup. split.
  - destruct (find _ validSchemes) as [[k v]|] eqn:F; [|discriminate].
    intros _. apply find_some in F. destruct F as [Hin E].
    cbn [fst] in E. apply strings_eqb_eq in E. subst k.
    apply (in_map fst) in Hin. exact Hin.
  - intros Hin. apply in_map_iff in Hin. destruct Hin as ([k v] & <- & Hin).
    cbn [fst].
    destruct (find (fun kv => strings_.eqb (fst kv) k) validSchemes)
      as [[k' v']|] eqn:F.
    + apply find_some in F. destruct F as [Hin' _].
      pose proof validSchemes_checked as C. rewrite forallb_forall in C.
      apply C in Hin'. cbn [snd] in Hin'.
      apply andb_true_iff in Hin'. apply Hin'.
    + exfalso. apply (find_none _ _ F) in Hin. cbn [fst] in Hin.
      rewrite (proj2 (strings_eqb_eq k k) eq_refl) in Hin. discriminate.
Qed.

Lemma validSchemes_clean (key : bytes) :
  lookup key validSchemes = true ->
  strings_.hasByte ":"%byte key = false
  /\ strings_.hasByte "#"%byte key = false.
Proof.
  intros H. apply lookup_validSchemes in H.
  apply in_map_iff in H. destruct H as ([k v] & <- & Hin). cbn [fst].
  pose proof validSchemes_checked as C. rewrite forallb_forall in C.
  apply C in Hin. cbn [fst snd] in Hin.
  apply andb_true_iff in Hin. destruct Hin as [Hin _].
  apply andb_true_iff in Hin. destruct Hin as [H1 H2].
  apply negb_true_iff in H1. apply negb_true_iff in H2. split; assumption.
Qed.

Section WithLibraries.

Variable Map_ToLower : bytes -> bytes.
Variable TrimFunc_IsSpace : bytes -> bytes.
Variable TrimRightFunc_IsSpace : bytes -> bytes.
Variable PhoneNumber : Type.
Variable phonenumbers_Parse : bytes -> bytes -> option PhoneNumber.
Variable phonenumbers_IsValidNumber : PhoneNumber -> bool.
Variable phonenumbers_FormatE164 : PhoneNumber -> bytes.

Lemma ToLower_nil : strings_.ToLower Map_ToLower [] = [].
Proof. reflexivity. Qed.

(** [newURN] as a concatenation. *)
Lemma newURN_shape (scheme path display : bytes) :
  newURN Map_ToLower scheme path display
  = scheme ++ lit ":" ++ path
    ++ match display with
       | [] => []
       | _ :: _ => lit "#" ++ strings_.ToLower Map_ToLower display
       end.
Proof.
  unfold newURN. destruct display as [|x d]; cbn [strings_.eqb negb].
  - rewrite app_nil_r. reflexivity.
  - rewrite <- !app_assoc. reflexivity.
Qed.

Lemma newURN_parts (scheme path display : bytes) :
  strings_.hasByte ":"%byte scheme = false ->
  strings_.hasByte "#"%byte scheme = false ->
  strings_.hasByte "#"%byte path = false ->
  Scheme (newURN Map_ToLower scheme path display) = scheme
  /\ Path (newURN Map_ToLower scheme path display) = path
  /\ Display (newURN Map_ToLower scheme path display)
     = strings_.ToLower Map_ToLower display
  /\ Identity (newURN Map_ToLower scheme path display)
     = scheme ++ lit ":" ++ path.
Proof.
  intros Hs Hh Hp. rewrite newURN_shape.
  destruct display as [|x d].
  - rewrite app_nil_r.
    split; [apply Scheme_cut, Hs|].
    destruct (Path_whole scheme path Hs Hp) as [P D].
    split; [exact P|]. split; [exact D|].
    unfold Identity. change (lit "#") with ["#"%byte].
    rewrite SplitByte_missing; [reflexivity|].
    rewrite !hasByte_app, Hh, Hp. reflexivity.
  - split; [apply Scheme_cut, Hs|].
    destruct (Path_cut scheme path
                (strings_.ToLower Map_ToLower (x :: d)) Hs Hp) as [P D].
    split; [exact P|]. split; [exact D|].
    unfold Identity. change (lit "#") with ["#"%byte].
    replace (scheme ++ lit ":" ++ path ++ ["#"%byte]
             ++ strings_.ToLower Map_ToLower (x :: d))
      with ((scheme ++ lit ":" ++ path) ++ ["#"%byte]
            ++ strings_.ToLower Map_ToLower (x :: d))
      by (rewrite <- !app_assoc; reflexivity).
    rewrite SplitByte_found; [reflexivity|].
    rewrite !hasByte_app, Hh, Hp. reflexivity.
Qed.

(** A URN built by [newURN] gives back what it was built from: with a
    scheme that holds neither colon nor hash and a path that holds no
    hash, its scheme and path are the ones given, its display is the one
    given in lower case, and its identity is [scheme:path]. *)
Theorem newURN_round_trip (scheme path display : bytes) :
  strings_.hasByte ":"%byte scheme = false ->
  strings_.hasByte "#"%byte scheme = false ->
  strings_.hasByte "#"%byte path = false ->
  Scheme (newURN Map_ToLower scheme path display) = scheme
  /\ Path (newURN Map_ToLower scheme path display) = path
  /\ Display (newURN Map_ToLower scheme path display)
     = strings_.ToLower Map_ToLower display
  /\ Identity (newURN Map_ToLower scheme path display)
     = scheme ++ lit ":" ++ path.
Proof. apply newURN_parts. Qed.

(** [newURN] does not escape a hash in the path: the URN is then read
    with the path cut at its first hash and the rest of it in front of the
    display. *)
Theorem newURN_hash_in_path (scheme before after display : bytes) :
  strings_.hasByte ":"%byte scheme = false ->
  strings_.hasByte "#"%byte before = false ->
  Path (newURN Map_ToLower scheme (before ++ lit "#" ++ after) display)
  = before
  /\ Display (newURN Map_ToLower scheme (before ++ lit "#" ++ after) display)
     = after
       ++ match display with
          | [] => []
          | _ :: _ => lit "#" ++ strings_.ToLower Map_ToLower display
          end.
Proof.
  intros Hs Hb. rewrite newURN_shape, <- !app_assoc.
  apply (Path_cut scheme before _ Hs Hb).
Qed.

(** [NewURNFromParts] accepts exactly the ten schemes, compared in lower
    case. It then returns the URN of the lower-case scheme, whose scheme
    is that one and whose path and display are the ones given (the
    display in lower case) when the path holds no hash; otherwise it
    returns [NilURN] and an error that quotes the lower-case scheme. *)
Theorem NewURNFromParts_result (scheme path display : bytes) :
  (snd (NewURNFromParts Map_ToLower scheme path display) = None
   <-> In (strings_.ToLower Map_ToLower scheme) (map fst validSchemes))
  /\ (snd (NewURNFromParts Map_ToLower scheme path display) = None ->
      fst (NewURNFromParts Map_ToLower scheme path display)
      = newURN Map_ToLower (strings_.ToLower Map_ToLower scheme) path display
      /\ Scheme (fst (NewURNFromParts Map_ToLower scheme path display))
         = strings_.ToLower Map_ToLower scheme
      /\ (strings_.hasByte "#"%byte path = false ->
          Path (fst (NewURNFromParts Map_ToLower scheme path display))
          = path
          /\ Display (fst (NewURNFromParts Map_ToLower scheme path display))
             = strings_.ToLower Map_ToLower display))
  /\ (snd (NewURNFromParts Map_ToLower scheme path display) <> None ->
      NewURNFromParts Map_ToLower scheme path display
      = (NilURN,
         Some (lit "invalid scheme '"
               ++ strings_.ToLower Map_ToLower scheme ++ lit "'"))).
Proof.
  unfold NewURNFromParts.
  destruct (lookup (strings_.ToLower Map_ToLower scheme) validSchemes) eqn:L;
    cbn [negb fst snd].
  - destruct (validSchemes_clean _ L) as [Hc Hh].
    split; [split; [intros _; apply lookup_validSchemes, L | reflexivity]|].
    split; [|congruence]. intros _.
    split; [reflexivity|].
    split; [rewrite newURN_shape; apply Scheme_cut, Hc|].
    intros Hp.
    destruct (newURN_parts (strings_.ToLower Map_ToLower scheme) path
                display Hc Hh Hp) as (_ & P & D & _).
    split; assumption.
  - split; [split; [discriminate|]|].
    + intros Hin. apply lookup_validSchemes in Hin. congruence.
    + split; [discriminate | reflexivity].
Qed.

(** The URN of a Telegram identifier has the scheme [telegram], the
    decimal rendering of the identifier as its path, from which the
    identifier is read back, and the display in lower case. *)
Theorem NewTelegramURN_parts (identifier : Z) (display : bytes) :
  Scheme (NewTelegramURN Map_ToLower identifier display) = lit "telegram"
  /\ Path (NewTelegramURN Map_ToLower identifier display)
     = FormatInt identifier
  /\ readInt (Path (NewTelegramURN Map_ToLower identifier display))
     = Some identifier
  /\ Display (NewTelegramURN Map_ToLower identifier display)
     = strings_.ToLower Map_ToLower display.
Proof.
  unfold NewTelegramURN.
  assert (Hp : strings_.hasByte "#"%byte (FormatInt identifier) = false)
    by (apply (forallb_hasByte decimalChar);
        [apply FormatInt_chars | reflexivity]).
  destruct (newURN_parts TelegramScheme (FormatInt identifier) display
              (eq_refl _) (eq_refl _) Hp) as (S & P & D & _).
  split; [exact S|]. split; [exact P|]. split; [|exact D].
  rewrite P. apply readInt_FormatInt.
Qed.

End WithLibraries.

Lemma asciiSpace_stripped (c : byte) :
  strings_.asciiSpace c = true -> telChar (strings_.lowerASCII c) = false.
Proof. destruct c; try discriminate; reflexivity. Qed.

Lemma spaces_stripped (sp : bytes) :
  forallb strings_.asciiSpace sp = true ->
  filter telChar (map strings_.lowerASCII sp) = [].
Proof.
  induction sp as [|c sp IH]; [reflexivity|].
  cbn [forallb map filter]. intros H. apply andb_true_iff in H.
  destruct H as [Hc Hs]. rewrite (asciiSpace_stripped c Hc). apply IH, Hs.
Qed.

Lemma isASCII_cons (c : byte) (s : bytes) :
  strings_.isASCII (c :: s) = true ->
  (utf8.RuneSelf <=? to_N c)%N = false /\ strings_.isASCII s = true.
Proof.
  cbn [strings_.isASCII forallb]. intros H. apply andb_true_iff in H.
  destruct H as [Hc Hs]. split; [|exact Hs].
  apply N.ltb_lt in Hc. apply N.leb_gt. exact Hc.
Qed.

Section WithLibraries.

Variable Map_ToLower : bytes -> bytes.
Variable TrimFunc_IsSpace : bytes -> bytes.
Variable TrimRightFunc_IsSpace : bytes -> bytes.
Variable PhoneNumber : Type.
Variable phonenumbers_Parse : bytes -> bytes -> option PhoneNumber.
Variable phonenumbers_IsValidNumber : PhoneNumber -> bool.
Variable phonenumbers_FormatE164 : PhoneNumber -> bytes.

(** On ASCII, the second loop of [TrimSpace] drops the spaces at the end
    and nothing else. *)
Lemma trimEnd_ascii (reversed : bytes) :
  strings_.isASCII reversed = true ->
  exists sp rest,
    reversed = sp ++ rest
    /\ forallb strings_.asciiSpace sp = true
    /\ strings_.trimEnd TrimRightFunc_IsSpace reversed = rev rest.
Proof.
  induction reversed as [|c rs IH]; intros H.
  - exists [], []. repeat split.
  - destruct (isASCII_cons c rs H) as [Hc Hrs].
    cbn [strings_.trimEnd]. rewrite Hc.
    destruct (strings_.asciiSpace c) eqn:Sp.
    + destruct (IH Hrs) as (sp & rest & -> & Hsp & E).
      exists (c :: sp), rest. cbn [app forallb]. rewrite Sp, Hsp.
      repeat split. exact E.
    + exists [], (c :: rs). repeat split.
Qed.

(** On ASCII, [TrimSpace] drops spaces at both ends and nothing else. *)
Lemma TrimSpace_ascii (s : bytes) :
  strings_.isASCII s = true ->
  exists pre post,
    s = pre
        ++ strings_.TrimSpace TrimFunc_IsSpace TrimRightFunc_IsSpace s
        ++ post
    /\ forallb strings_.asciiSpace pre = true
    /\ forallb strings_.asciiSpace post = true.
Proof.
  induction s as [|c s IH]; intros H.
  - exists [], []. repeat split.
  - destruct (isASCII_cons c s H) as [Hc Hs].
    cbn [strings_.TrimSpace]. rewrite Hc.
    destruct (strings_.asciiSpace c) eqn:Sp.
    + destruct (IH Hs) as (pre & post & E & Hpre & Hpost).
      exists (c :: pre), post. cbn [app forallb]. rewrite Sp, Hpre, Hpost.
      repeat split. f_equal. exact E.
    + destruct (trimEnd_ascii (rev (c :: s))) as (sp & rest & E & Hsp & T).
      { unfold strings_.isASCII in *. rewrite forallb_rev. exact H. }
      rewrite T. exists [], (rev sp). cbn [app forallb].
      rewrite forallb_rev, Hsp. repeat split.
      rewrite <- rev_app_distr, <- E, rev_involutive. reflexivity.
Qed.

(** The number [NewTelURNForCountry] works on holds digits and lower-case
    letters only. *)
Lemma cleanNumber_chars (number : bytes) :
  forallb telChar
    (cleanNumber Map_ToLower TrimFunc_IsSpace TrimRightFunc_IsSpace number)
  = true.
Proof. apply forallb_filter. Qed.

(** [NewTelURNForCountry] always returns a URN of the scheme [tel],
    whatever the number and whatever [phonenumbers] makes of it. *)
Theorem NewTelURNForCountry_scheme (number country : bytes) :
  Scheme (NewTelURNForCountry Map_ToLower TrimFunc_IsSpace
            TrimRightFunc_IsSpace PhoneNumber phonenumbers_Parse
            phonenumbers_IsValidNumber phonenumbers_FormatE164 number
            country)
  = lit "tel".
Proof.
  unfold NewTelURNForCountry.
  destruct (phonenumbers_Parse _ country) as [normalized|];
    [destruct (phonenumbers_IsValidNumber normalized)|];
    rewrite newURN_shape; apply Scheme_cut; reflexivity.
Qed.

(** When [phonenumbers] cannot parse the number, or parses it and finds
    it invalid, the URN is [tel:] followed by the number as it was
    cleaned: its path holds digits and lower-case letters only, and it
    has no display. *)
Theorem NewTelURNForCountry_unparsed (number country : bytes) :
  match phonenumbers_Parse
          (parseNumber
             (cleanNumber Map_ToLower TrimFunc_IsSpace TrimRightFunc_IsSpace
                number))
          country with
  | None => true
  | Some normalized => negb (phonenumbers_IsValidNumber normalized)
  end = true ->
  NewTelURNForCountry Map_ToLower TrimFunc_IsSpace TrimRightFunc_IsSpace
    PhoneNumber phonenumbers_Parse phonenumbers_IsValidNumber
    phonenumbers_FormatE164 number country
  = lit "tel:"
    ++ cleanNumber Map_ToLower TrimFunc_IsSpace TrimRightFunc_IsSpace number
  /\ Path (NewTelURNForCountry Map_ToLower TrimFunc_IsSpace
             TrimRightFunc_IsSpace PhoneNumber phonenumbers_Parse
             phonenumbers_IsValidNumber phonenumbers_FormatE164 number
             country)
     = cleanNumber Map_ToLower TrimFunc_IsSpace TrimRightFunc_IsSpace number
  /\ Display (NewTelURNForCountry Map_ToLower TrimFunc_IsSpace
                TrimRightFunc_IsSpace PhoneNumber phonenumbers_Parse
                phonenumbers_IsValidNumber phonenumbers_FormatE164 number
                country)
     = []
  /\ forallb telChar
       (Path (NewTelURNForCountry Map_ToLower TrimFunc_IsSpace
                TrimRightFunc_IsSpace PhoneNumber phonenumbers_Parse
                phonenumbers_IsValidNumber phonenumbers_FormatE164 number
                country))
     = true.
Proof.
  intros H.
  pose proof (cleanNumber_chars number) as C.
  set (n := cleanNumber Map_ToLower TrimFunc_IsSpace TrimRightFunc_IsSpace
              number) in *.
  assert (Hh : strings_.hasByte "#"%byte n = false)
    by (apply (forallb_hasByte telChar); [exact C | reflexivity]).
  assert (E : NewTelURNForCountry Map_ToLower TrimFunc_IsSpace
                TrimRightFunc_IsSpace PhoneNumber phonenumbers_Parse
                phonenumbers_IsValidNumber phonenumbers_FormatE164 number
                country
              = newURN Map_ToLower TelScheme n []).
  { unfold NewTelURNForCountry. fold n.
    destruct (phonenumbers_Parse (parseNumber n) country) as [normalized|];
      [|reflexivity].
    destruct (phonenumbers_IsValidNumber normalized);
      [discriminate | reflexivity]. }
  rewrite E.
  destruct (newURN_parts Map_ToLower TelScheme n [] (eq_refl _)
              (eq_refl _) Hh) as (_ & P & D & _).
  rewrite P, D.
  split; [rewrite newURN_shape, app_nil_r; reflexivity|].
  split; [reflexivity|]. split; [reflexivity | exact C].
Qed.

(** The cleaned number never starts with a plus, so the plus that marks
    a fully qualified number is put in front of every cleaned number of 11
    characters or more that does not start with a zero, also when the
    number given had a plus of its own. *)
Theorem NewTelURNForCountry_adds_plus (number : bytes) :
  parseNumber
    (cleanNumber Map_ToLower TrimFunc_IsSpace TrimRightFunc_IsSpace number)
  = if (11 <=? List.length
                 (cleanNumber Map_ToLower TrimFunc_IsSpace
                    TrimRightFunc_IsSpace number))%nat
       && negb (bytes_.HasPrefix
                  (cleanNumber Map_ToLower TrimFunc_IsSpace
                     TrimRightFunc_IsSpace number) (lit "0"))
    then lit "+"
         ++ cleanNumber Map_ToLower TrimFunc_IsSpace TrimRightFunc_IsSpace
              number
    else cleanNumber Map_ToLower TrimFunc_IsSpace TrimRightFunc_IsSpace
           number.
Proof.
  pose proof (cleanNumber_chars number) as C.
  set (n := cleanNumber Map_ToLower TrimFunc_IsSpace TrimRightFunc_IsSpace
              number) in *.
  unfold parseNumber.
  assert (P : bytes_.HasPrefix n (lit "+") = false).
  { destruct n as [|c n']; [reflexivity|].
    cbn [forallb] in C. apply andb_true_iff in C. destruct C as [Hc _].
    change (lit "+") with [x2b]. cbn [bytes_.HasPrefix].
    destruct (Byte.eqb c x2b) eqn:E; [|reflexivity].
    apply byte_dec_bl in E. subst c. discriminate. }
  rewrite P. reflexivity.
Qed.

(** For an ASCII number the cleaning is plain: the letters are put in
    lower case and everything but digits and letters is dropped, spaces
    and signs included. *)
Theorem cleanNumber_of_ASCII (number : bytes) :
  strings_.isASCII number = true ->
  cleanNumber Map_ToLower TrimFunc_IsSpace TrimRightFunc_IsSpace number
  = filter telChar (map strings_.lowerASCII number).
Proof.
  intros H.
  destruct (TrimSpace_ascii number H) as (pre & post & E & Hpre & Hpost).
  set (t := strings_.TrimSpace TrimFunc_IsSpace TrimRightFunc_IsSpace number)
    in *.
  assert (Ht : strings_.isASCII t = true).
  { unfold strings_.isASCII in *. rewrite E, !forallb_app in H.
    apply andb_true_iff in H. destruct H as [_ H].
    apply andb_true_iff in H. apply H. }
  unfold cleanNumber, telRegex_strip, strings_.ToLower. fold t. rewrite Ht.
  clearbody t. rewrite E, !map_app, !filter_app.
  rewrite (spaces_stripped pre Hpre), (spaces_stripped post Hpost).
  rewrite app_nil_r. reflexivity.
Qed.

End WithLibraries.

(** *** The properties at sample URNs *)

Lemma newURN_round_trip_witness :
  Scheme (newURN asciiLower (lit "tel") (lit "+250788383383") (lit "Bob"))
  = lit "tel"
  /\ Path (newURN asciiLower (lit "tel") (lit "+250788383383") (lit "Bob"))
     = lit "+250788383383"
  /\ Display (newURN asciiLower (lit "tel") (lit "+250788383383")
                (lit "Bob"))
     = strings_.ToLower asciiLower (lit "Bob")
  /\ Identity (newURN asciiLower (lit "tel") (lit "+250788383383")
                 (lit "Bob"))
     = lit "tel" ++ lit ":" ++ lit "+250788383383".
Proof.
  apply (newURN_round_trip asciiLower (lit "tel") (lit "+250788383383")
           (lit "Bob")); reflexivity.
Defined.

Lemma newURN_hash_in_path_witness :
  Path (newURN asciiLower (lit "ext") (lit "a" ++ lit "#" ++ lit "b") [])
  = lit "a"
  /\ Display (newURN asciiLower (lit "ext") (lit "a" ++ lit "#" ++ lit "b")
                [])
     = lit "b" ++ [].
Proof.
  apply (newURN_hash_in_path asciiLower (lit "ext") (lit "a") (lit "b") []);
    reflexivity.
Defined.

Lemma NewURNFromParts_result_witness :
  (fst (NewURNFromParts asciiLower (lit "TEL") (lit "123") (lit "Bob"))
   = newURN asciiLower (strings_.ToLower asciiLower (lit "TEL")) (lit "123")
       (lit "Bob")
   /\ Scheme (fst (NewURNFromParts asciiLower (lit "TEL") (lit "123")
                     (lit "Bob")))
      = strings_.ToLower asciiLower (lit "TEL")
   /\ (strings_.hasByte "#"%byte (lit "123") = false ->
       Path (fst (NewURNFromParts asciiLower (lit "TEL") (lit "123")
                    (lit "Bob")))
       = lit "123"
       /\ Display (fst (NewURNFromParts asciiLower (lit "TEL") (lit "123")
                          (lit "Bob")))
          = strings_.ToLower asciiLower (lit "Bob")))
  /\ NewURNFromParts asciiLower (lit "sms") (lit "123") []
     = (NilURN,
        Some (lit "invalid scheme '"
              ++ strings_.ToLower asciiLower (lit "sms") ++ lit "'")).
Proof.
  split.
  - apply (proj1 (proj2 (NewURNFromParts_result asciiLower (lit "TEL")
                           (lit "123") (lit "Bob")))).
    reflexivity.
  - apply (proj2 (proj2 (NewURNFromParts_result asciiLower (lit "sms")
                           (lit "123") []))).
    discriminate.
Defined.

Lemma NewTelURNForCountry_unparsed_witness :
  NewTelURNForCountry asciiLower (fun s => s) (fun s => s) bytes
    parsesNothing (fun _ => true) (fun n => n)
    (lit " (250) 788-383-383 ") (lit "RW")
  = lit "tel:"
    ++ cleanNumber asciiLower (fun s => s) (fun s => s)
         (lit " (250) 788-383-383 ").
Proof.
  apply (NewTelURNForCountry_unparsed asciiLower (fun s => s) (fun s => s)
           bytes parsesNothing (fun _ => true) (fun n => n)
           (lit " (250) 788-383-383 ") (lit "RW")).
  reflexivity.
Defined.

Lemma cleanNumber_of_ASCII_witness :
  cleanNumber asciiLower (fun s => s) (fun s => s)
    (lit " +250 788-383-383 Ext ")
  = lit "250788383383ext".
Proof.
  rewrite (cleanNumber_of_ASCII asciiLower (fun s => s) (fun s => s)
             (lit " +250 788-383-383 Ext ") (eq_refl _)).
  reflexivity.
Defined.

End urnsFacts.
